(** * Concurso de talentos: vote admission, tallies and reports

    A shallow embedding of [modelos.py], [repositorios.py], [servicios.py]
    and the vote endpoint of [main.py].

    - The three Mongo collections are lists of documents in insertion
      order; the Redis database is a finite map from key to integer.
    - A service method that talks to a store is a function in a small
      state-and-exception monad over [Store]; whether one store call of a
      [cast_vote] run faults is read from an [Env] record, and whether one
      of an [initialize_database] run does from a [LoadEnv] record.
    - The descriptors of the bulk load are JSON objects, with values of
      any JSON type.
    - The reporting methods only read; they are pure functions of the
      store contents. *)

From Stdlib Require Import ZArith String Ascii List Lia Sorted Permutation.
From stdpp Require Import base option list gmap strings fin_maps sorting.

Local Open Scope string_scope.
Local Open Scope list_scope.
Local Open Scope Z_scope.

(** ** modelos.py *)

Record Contestant := {
  c_id : option string;        (* id: Optional[str], alias _id *)
  nombre : string;
  categoria : string;
  foto : string
}.

Record VoteRecord := {
  user_id : string;
  contestant_id : string;
  timestamp : Z
}.

Record User := {
  username : string;
  role : string
}.

Record LoginResponse := {
  lr_user_id : string;
  lr_username : string;
  lr_role : string
}.

Record ContestantPublicView := {
  pv_id : string;
  pv_nombre : string;
  pv_categoria : string;
  pv_foto : string
}.

Record ContestantAdminView := {
  av_id : string;
  av_nombre : string;
  av_categoria : string;
  av_foto : string;
  total_votes : Z
}.

Record DashboardStats := {
  total_votes_system : Z;
  votes_by_category : gmap string Z
}.

(** ** The stores *)

(** A document of [db.contestants].  [add_contestant] writes all three
    text fields; a document left by an older schema may lack some. *)
Record ContestantDoc := {
  doc_id : string;
  doc_nombre : option string;
  doc_categoria : option string;
  doc_foto : option string;
  doc_initial_votes : option Z
}.

(** The payload of a ['VOTE_UPDATE'] event. *)
Record VoteUpdate := {
  ev_contestant_id : string;
  ev_new_total_votes : Z;
  ev_system_total : Z
}.

Record Store := {
  contestants : list ContestantDoc;    (* db.contestants *)
  votes : list VoteRecord;             (* db.votes *)
  users : list User;                   (* db.users *)
  redis : gmap string Z;               (* the Redis database *)
  delivered : list VoteUpdate          (* events handed to the observers *)
}.

Definition empty_store : Store :=
  {| contestants := []; votes := []; users := []; redis := ∅; delivered := [] |}.

Definition set_contestants (f : list ContestantDoc → list ContestantDoc) (s : Store) : Store :=
  {| contestants := f (contestants s); votes := votes s; users := users s;
     redis := redis s; delivered := delivered s |}.

Definition set_votes (f : list VoteRecord → list VoteRecord) (s : Store) : Store :=
  {| contestants := contestants s; votes := f (votes s); users := users s;
     redis := redis s; delivered := delivered s |}.

Definition set_users (f : list User → list User) (s : Store) : Store :=
  {| contestants := contestants s; votes := votes s; users := f (users s);
     redis := redis s; delivered := delivered s |}.

Definition set_redis (f : gmap string Z → gmap string Z) (s : Store) : Store :=
  {| contestants := contestants s; votes := votes s; users := users s;
     redis := f (redis s); delivered := delivered s |}.

Definition set_delivered (f : list VoteUpdate → list VoteUpdate) (s : Store) : Store :=
  {| contestants := contestants s; votes := votes s; users := users s;
     redis := redis s; delivered := f (delivered s) |}.

(** ** State and exceptions *)

Inductive exn := MongoError | RedisError | SocketError | ValidationError.

Inductive result (A : Type) :=
  | Returned (a : A)
  | Raised (e : exn).
Arguments Returned {A} a.
Arguments Raised {A} e.

Definition M (A : Type) : Type := Store → Store * result A.

Definition ret {A} (a : A) : M A := λ s, (s, Returned a).
Definition raise {A} (e : exn) : M A := λ s, (s, Raised e).
Definition bind {A B} (m : M A) (k : A → M B) : M B :=
  λ s, match m s with
       | (s', Returned a) => k a s'
       | (s', Raised e) => (s', Raised e)
       end.
(** [try: m  except Exception: h] *)
Definition try_except {A} (m : M A) (h : exn → M A) : M A :=
  λ s, match m s with
       | (s', Returned a) => (s', Returned a)
       | (s', Raised e) => h e s'
       end.
Definition modify (f : Store → Store) : M unit := λ s, (f s, Returned tt).
Definition gets {A} (f : Store → A) : M A := λ s, (s, Returned (f s)).

Global Instance M_ret : MRet M := @ret.
Global Instance M_bind : MBind M := λ A B k m, bind m k.

(** One call to a store: it raises when the store faults, and otherwise
    runs its effect. *)
Definition store_call {A} (fault : bool) (e : exn) (m : M A) : M A :=
  if fault then raise e else m.

(** ** Python and driver helpers *)

(** [str.lower] on the letters A-Z; every other byte is left as it is. *)
Definition lower_ascii (a : ascii) : ascii :=
  let n := N_of_ascii a in
  if ((65 <=? n) && (n <=? 90))%N then ascii_of_N (n + 32) else a.

Fixpoint lower (s : string) : string :=
  match s with
  | EmptyString => EmptyString
  | String a s' => String (lower_ascii a) (lower s')
  end.

(** Every character of a string passes a test. *)
Fixpoint all_chars (p : ascii → bool) (s : string) : bool :=
  match s with
  | EmptyString => true
  | String a s' => p a && all_chars p s'
  end.

Definition is_hex (a : ascii) : bool :=
  let n := N_of_ascii a in
  (((48 <=? n) && (n <=? 57)) || ((97 <=? n) && (n <=? 102))
   || ((65 <=? n) && (n <=? 70)))%N.

(** [ObjectId(text)]: the text must be 24 hexadecimal digits, of either
    case; the id is named here by its canonical text, which is what
    [str] gives for it.  Any other text raises InvalidId, here [None]. *)
Definition ObjectId (text : string) : option string :=
  if (String.length text =? 24)%nat && all_chars is_hex text then Some (lower text)
  else None.

(** ** repositorios.py *)

Module MongoContestantRepository.

(** [insert_one] of the dumped contestant; [new_id] is the [_id] the
    driver generates for the new document. *)
Definition add_contestant (new_id : string) (contestant : Contestant)
    (s : Store) : Store * string :=
  let data :=
    {| doc_id := new_id;
       doc_nombre := Some (nombre contestant);
       doc_categoria := Some (categoria contestant);
       doc_foto := Some (foto contestant);
       doc_initial_votes := Some 0 |} in
  (set_contestants (λ l, l ++ [data]) s, new_id).

(** Building a [Contestant] from a document: the three text fields
    are required, the extra field [initial_votes] is ignored. *)
Definition parse (doc : ContestantDoc) : option Contestant :=
  match doc_nombre doc, doc_categoria doc, doc_foto doc with
  | Some n, Some c, Some f =>
      Some {| c_id := Some (doc_id doc); nombre := n; categoria := c; foto := f |}
  | _, _, _ => None
  end.

(** A document that does not parse is skipped with a warning. *)
Definition get_all (s : Store) : list Contestant :=
  omap parse (contestants s).

(** [find_one({"_id": ObjectId(contestant_id)})]: [doc_id] holds the
    canonical text of a document's id.  A text that is no ObjectId, a
    miss, and a document that does not parse all end in the bare
    [except] or fall through, and give [None]. *)
Definition get_by_id (s : Store) (contestant_id : string) : option Contestant :=
  oid ← ObjectId contestant_id;
  doc ← List.find (λ d, String.eqb (doc_id d) oid) (contestants s);
  parse doc.

Definition clear_all : Store → Store := set_contestants (λ _, []).

End MongoContestantRepository.

Module MongoVoteRepository.

Definition same_pair (u c : string) (v : VoteRecord) : bool :=
  bool_decide (user_id v = u) && bool_decide (contestant_id v = c).

(** [collection.find_one({"user_id": u, "contestant_id": c})] *)
Definition find_one (coll : list VoteRecord) (u c : string) : option VoteRecord :=
  List.find (same_pair u c) coll.

(** [collection.insert_one(vote_data)] under the unique index on
    [(user_id, contestant_id)] that the constructor creates: a second
    document with the same pair is refused with an error. *)
Definition insert_one (fault : bool) (v : VoteRecord) : M unit :=
  store_call fault MongoError
    (dup ← gets (λ s, find_one (votes s) (user_id v) (contestant_id v));
     match dup with
     | Some _ => raise MongoError
     | None => modify (set_votes (λ l, l ++ [v]))
     end).

Definition register_vote_document (fault : bool) (now : Z) (vote : VoteRecord) : M bool :=
  try_except
    (let vote_data :=
       {| user_id := user_id vote; contestant_id := contestant_id vote;
          timestamp := now |} in
     insert_one fault vote_data;;
     ret true)
    (λ _, ret false).

Definition has_voted (coll : list VoteRecord) (u c : string) : bool :=
  bool_decide (find_one coll u c ≠ None).

Definition has_user_voted_for (fault : bool) (u c : string) : M bool :=
  store_call fault MongoError (gets (λ s, has_voted (votes s) u c)).

Definition clear_all : Store → Store := set_votes (λ _, []).

End MongoVoteRepository.

Module RedisRankingRepository.

Definition TOTAL_SYSTEM_VOTES_KEY : string := "system:total_votes".

(** [f"contestant:{contestant_id}:votes"] *)
Definition votes_key (contestant_id : string) : string :=
  "contestant:" +:+ contestant_id +:+ ":votes".

(** [int(v) if v else 0] on the reply of [redis.get]. *)
Definition int_or_0 (v : option Z) : Z := default 0 v.

(** Redis INCR: a missing key counts as 0; the reply is the new value.
    Counters are unbounded integers here: a counter at the 64-bit limit
    of INCR is outside the model. *)
Definition incr (k : string) (r : gmap string Z) : gmap string Z * Z :=
  let n := int_or_0 (r !! k) + 1 in (<[k := n]> r, n).

(** The two INCRs go through one MULTI/EXEC pipeline: both or none. *)
Definition increment_vote (fault : bool) (contestant_id : string) : M Z :=
  store_call fault RedisError
    (λ s,
       let '(r1, res0) := incr (votes_key contestant_id) (redis s) in
       let '(r2, _) := incr TOTAL_SYSTEM_VOTES_KEY r1 in
       (set_redis (λ _, r2) s, Returned res0)).

Definition get_total_votes (r : gmap string Z) (contestant_id : string) : Z :=
  int_or_0 (r !! votes_key contestant_id).

Definition get_system_total_votes (r : gmap string Z) : Z :=
  int_or_0 (r !! TOTAL_SYSTEM_VOTES_KEY).

(** The keys that [redis.keys("contestant:*:votes")] selects. *)
Definition has_suffix (suf k : string) : bool :=
  let n := String.length suf in
  let m := String.length k in
  (n <=? m)%nat && String.eqb (String.substring (m - n) n k) suf.

Definition is_votes_key (k : string) : bool :=
  String.prefix "contestant:" k && has_suffix ":votes" k
  && (String.length "contestant::votes" <=? String.length k)%nat.

(** [str.split(sep)] for a separator of one character. *)
Fixpoint str_split (sep : ascii) (s : string) : list string :=
  match s with
  | EmptyString => [EmptyString]
  | String c s' =>
      if Ascii.eqb c sep then EmptyString :: str_split sep s'
      else match str_split sep s' with
           | p :: ps => String c p :: ps
           | [] => [String c EmptyString]
           end
  end.

(** [redis.keys("contestant:*:votes")], in the order the server lists
    the keys. *)
Definition keys (r : gmap string Z) : list string :=
  filter (λ k, is_votes_key k = true) (map_to_list r).*1.

(** The body of the loop of [get_all_votes]. *)
Definition collect (r : gmap string Z) (result : gmap string Z) (key : string)
    : gmap string Z :=
  match str_split ":" key with
  | _ :: contestant_id :: _ =>            (* len(parts) >= 2 *)
      <[contestant_id := int_or_0 (r !! key)]> result
  | _ => result
  end.

Definition get_all_votes (r : gmap string Z) : gmap string Z :=
  fold_left (collect r) (keys r) ∅.

(** FLUSHDB *)
Definition clear_all : Store → Store := set_redis (λ _, ∅).

End RedisRankingRepository.

Module MongoUserRepository.

(** [update_one({"username": u}, {"$set": dump})]: the first document
    with that username takes the dumped fields; [None] when no document
    matches. *)
Fixpoint update_one (u : User) (coll : list User) : option (list User) :=
  match coll with
  | [] => None
  | d :: rest =>
      if String.eqb (username d) (username u) then Some (u :: rest)
      else cons d <$> update_one u rest
  end.

(** [upsert=True]: with no match the document is inserted, and
    [new_id] is the id it gets. *)
Definition create_user (new_id : string) (user : User) (s : Store) : Store * string :=
  match update_one user (users s) with
  | Some coll => (set_users (λ _, coll) s, "updated")
  | None => (set_users (λ l, l ++ [user]) s, new_id)
  end.

Definition get_user_by_username (s : Store) (name : string) : option User :=
  List.find (λ d, String.eqb (username d) name) (users s).

End MongoUserRepository.

(** ** socket_manager.py *)

(** What one [await sio.emit(...)] does: the event reaches the observers,
    or it is lost without the caller hearing of it, or the call raises. *)
Inductive emit_outcome := Delivered | Lost | EmitRaises.

Definition sio_emit (o : emit_outcome) (ev : VoteUpdate) : M unit :=
  match o with
  | Delivered => modify (set_delivered (λ l, l ++ [ev]))
  | Lost => ret tt
  | EmitRaises => raise SocketError
  end.

(** ** servicios.py *)

(** The environment of one [cast_vote] run: which store call faults, what
    the notification does, and the wall clock. *)
Record Env := {
  find_fault : bool;        (* find_one in has_user_voted_for raises *)
  insert_fault : bool;      (* insert_one in register_vote_document raises *)
  incr_fault : bool;        (* the INCR pipeline raises *)
  get_fault : bool;         (* redis.get of the system total raises *)
  emit : emit_outcome;
  now : Z
}.

Module VotingService.

(** [ContestantPublicView(id=c.id, ...)] needs an id: a contestant
    without one makes the method raise, here [None]. *)
Definition get_contestants_for_public (s : Store) : option (list ContestantPublicView) :=
  mapM (λ c,
          id ← c_id c;
          Some {| pv_id := id; pv_nombre := nombre c; pv_categoria := categoria c;
                  pv_foto := foto c |})
       (MongoContestantRepository.get_all s).

Definition cast_vote (env : Env) (user_id contestant_id : string) : M bool :=
  voted ← MongoVoteRepository.has_user_voted_for (find_fault env) user_id contestant_id;
  if (voted : bool) then ret false else
  let vote_record :=
    {| user_id := user_id; contestant_id := contestant_id; timestamp := now env |} in
  success_mongo ←
    MongoVoteRepository.register_vote_document (insert_fault env) (now env) vote_record;
  if (success_mongo : bool) then
    new_contestant_total ←
      RedisRankingRepository.increment_vote (incr_fault env) contestant_id;
    system_total ←
      store_call (get_fault env) RedisError
        (gets (λ s, RedisRankingRepository.get_system_total_votes (redis s)));
    sio_emit (emit env)
      {| ev_contestant_id := contestant_id;
         ev_new_total_votes := new_contestant_total;
         ev_system_total := system_total |};;
    ret true
  else ret false.

End VotingService.

(** Python truthiness of what [dict.get] returns for a text field:
    [None] and the empty string are false. *)
Definition truthy (v : option string) : bool :=
  match v with
  | Some s => bool_decide (s ≠ "")
  | None => false
  end.

#[local] Set Warnings "-register-all".

(** A value as [json.loads] gives it.  A number stands for an int or a
    float; here only whether it is zero matters. *)
Inductive json :=
  | JNull
  | JBool (b : bool)
  | JNumber (n : Z)
  | JString (s : string)
  | JArray (items : list json)
  | JObject (fields : list (string * json)).

(** Python truthiness of a JSON value ([None] is [JNull]). *)
Definition json_truthy (v : json) : bool :=
  match v with
  | JNull => false
  | JBool b => b
  | JNumber n => negb (n =? 0)
  | JString s => bool_decide (s ≠ "")
  | JArray items => match items with [] => false | _ => true end
  | JObject fields => match fields with [] => false | _ => true end
  end.

(** [item.get(key)] *)
Definition dict_get (item : gmap string json) (key : string) : json :=
  default JNull (item !! key).

(** [a or b] *)
Definition py_or (a b : json) : json :=
  if json_truthy a then a else b.

(** [for i, item in enumerate(items): body(i, item)], from index [i]. *)
Fixpoint for_each {A} (body : nat → A → M unit) (i : nat) (items : list A) : M unit :=
  match items with
  | [] => ret tt
  | item :: rest => body i item;; for_each body (S i) rest
  end.

(** The environment of one [initialize_database] run: the ids the
    catalog hands out ([new_oid n] when it holds [n] documents) and
    which store call faults; the calls of the loop are told apart by the
    index of the descriptor. *)
Record LoadEnv := {
  new_oid : nat → string;
  clear_contestants_fault : bool;   (* contestant_repo.clear_all raises *)
  flushdb_fault : bool;             (* ranking_repo.clear_all raises *)
  clear_votes_fault : bool;         (* vote_repo.clear_all raises *)
  insert_fault_at : nat → bool;     (* insert_one for descriptor i raises *)
  set_fault_at : nat → bool;        (* redis.set for descriptor i raises *)
  set_total_fault : bool            (* the last redis.set raises *)
}.

(** [list.sort(key=key, reverse=True)]: descending by key, and stable
    (elements with equal keys keep their order, also under [reverse]). *)
Fixpoint insert_desc {A} (key : A → Z) (x : A) (l : list A) : list A :=
  match l with
  | [] => [x]
  | y :: l' => if key y <? key x then x :: y :: l' else y :: insert_desc key x l'
  end.

Definition sort_reverse {A} (key : A → Z) (l : list A) : list A :=
  fold_left (λ acc x, insert_desc key x acc) l [].

Module AdminService.

(** [Contestant(nombre=..., categoria=..., foto=...)]: the model
    validates its fields, and each must be text. *)
Definition new_contestant (nombre categoria foto : json) : M Contestant :=
  match nombre, categoria, foto with
  | JString nombre, JString categoria, JString foto =>
      ret {| c_id := None; nombre := nombre; categoria := categoria; foto := foto |}
  | _, _, _ => raise ValidationError
  end.

(** The body of the loop of [initialize_database]. *)
Definition load_item (env : LoadEnv) (i : nat) (item : gmap string json) : M unit :=
  let nombre := py_or (dict_get item "nombre") (dict_get item "name") in
  let categoria := py_or (dict_get item "categoria") (dict_get item "category") in
  let foto := py_or (py_or (dict_get item "foto") (dict_get item "photo_url"))
                (dict_get item "photo") in
  if negb (json_truthy nombre) || negb (json_truthy categoria) then ret tt   (* continue *)
  else
    c ← new_contestant nombre categoria (py_or foto (JString "default.png"));
    c_id ← store_call (insert_fault_at env i) MongoError
             (λ s, let '(s1, c_id) :=
                     MongoContestantRepository.add_contestant
                       (new_oid env (length (contestants s))) c s in
                   (s1, Returned c_id));
    store_call (set_fault_at env i) RedisError
      (modify (set_redis (insert (RedisRankingRepository.votes_key c_id) 0))).

Definition initialize_database (env : LoadEnv)
    (json_data : list (gmap string json)) : M unit :=
  store_call (clear_contestants_fault env) MongoError
    (modify MongoContestantRepository.clear_all);;
  store_call (flushdb_fault env) RedisError
    (modify RedisRankingRepository.clear_all);;
  store_call (clear_votes_fault env) MongoError
    (modify MongoVoteRepository.clear_all);;
  for_each (load_item env) 0 json_data;;
  store_call (set_total_fault env) RedisError
    (modify (set_redis (insert RedisRankingRepository.TOTAL_SYSTEM_VOTES_KEY 0))).

Definition add_contestant (new_id : string) (contestant : Contestant)
    (s : Store) : Store * string :=
  let '(s1, new_id) := MongoContestantRepository.add_contestant new_id contestant s in
  (set_redis (insert (RedisRankingRepository.votes_key new_id) 0) s1, new_id).

(** [ContestantAdminView(id=c.id, ...)] needs an id: a contestant
    without one makes the method raise, here [None]. *)
Definition get_realtime_dashboard (s : Store) : option (list ContestantAdminView) :=
  mapM (λ c,
          id ← c_id c;
          let votes := RedisRankingRepository.get_total_votes (redis s) id in
          Some {| av_id := id; av_nombre := nombre c; av_categoria := categoria c;
                  av_foto := foto c; total_votes := votes |})
       (MongoContestantRepository.get_all s).

Definition get_top_3 (s : Store) : option (list ContestantAdminView) :=
  full_data ← get_realtime_dashboard s;
  Some (take 3 (sort_reverse total_votes full_data)).

Definition get_contestants_with_zero_votes (s : Store)
    : option (list ContestantAdminView) :=
  full_data ← get_realtime_dashboard s;
  Some (filter (λ c, total_votes c = 0) full_data).

(** The loop of [get_votes_by_category] over the dashboard. *)
Definition add_category (category_totals : gmap string Z) (c : ContestantAdminView)
    : gmap string Z :=
  <[av_categoria c := default 0 (category_totals !! av_categoria c) + total_votes c]>
    category_totals.

Definition get_votes_by_category (s : Store) : option (gmap string Z) :=
  full_data ← get_realtime_dashboard s;
  Some (fold_left add_category full_data ∅).

Definition get_system_stats (s : Store) : option DashboardStats :=
  by_category ← get_votes_by_category s;
  Some {| total_votes_system := RedisRankingRepository.get_system_total_votes (redis s);
          votes_by_category := by_category |}.

End AdminService.

Module AuthService.

Definition login (new_id : string) (username : string) (s : Store) : Store * User :=
  let role := if String.eqb (lower username) "admin" then "admin" else "public" in
  let user := {| username := username; role := role |} in
  let '(s1, _) := MongoUserRepository.create_user new_id user s in
  (s1, user).

End AuthService.

(** ** main.py *)

(** The outcome of the dependency [require_admin]. *)
Inductive admin_check :=
  | Admin (user : User)
  | Denied (status_code : Z) (detail : string).

Definition require_admin (x_user_id : option string) (s : Store) : admin_check :=
  match x_user_id with
  | Some name =>
      if negb (truthy x_user_id) then Denied 401 "Header de autenticación faltante"
      else match MongoUserRepository.get_user_by_username s name with
           | None => Denied 401 "Usuario no válido"
           | Some user =>
               if negb (String.eqb (role user) "admin")
               then Denied 403 "No tienes permisos de administrador"
               else Admin user
           end
  | None => Denied 401 "Header de autenticación faltante"
  end.

(** POST /api/login *)
Definition login_endpoint (new_id name : string) (s : Store)
    : Store * LoginResponse :=
  let '(s', user) := AuthService.login new_id name s in
  (s', {| lr_user_id := username user; lr_username := username user;
          lr_role := role user |}).

(** ** main.py: POST /api/public/vote *)

Inductive http_response :=
  | Http200 (message : string)
  | HttpError (status_code : Z) (detail : string).

Definition cast_vote_endpoint (env : Env) (user_id contestant_id : string)
    (s : Store) : Store * http_response :=
  match VotingService.cast_vote env user_id contestant_id s with
  | (s', Returned true) => (s', Http200 "Voto registrado correctamente")
  | (s', Returned false) => (s', HttpError 409 "Ya has votado por este participante.")
  | (s', Raised _) => (s', HttpError 500 "Internal Server Error")
  end.

(** ** Runs of the service *)

Inductive op :=
  | CastVote (env : Env) (user_id contestant_id : string)
  | InitializeDatabase (env : LoadEnv) (json_data : list (gmap string json))
  | AddContestant (new_id : string) (contestant : Contestant)
  | Login (new_id : string) (username : string).

Definition run_op (o : op) (s : Store) : Store :=
  match o with
  | CastVote env u c => (VotingService.cast_vote env u c s).1
  | InitializeDatabase env json_data => (AdminService.initialize_database env json_data s).1
  | AddContestant new_id c => (AdminService.add_contestant new_id c s).1
  | Login new_id u => (AuthService.login new_id u s).1
  end.

Definition run (ops : list op) (s : Store) : Store :=
  fold_left (λ s o, run_op o s) ops s.

(** The operations that leave the ledger's records in place. *)
Definition keeps_ledger (o : op) : bool :=
  match o with
  | InitializeDatabase _ _ => false
  | _ => true
  end.

(** * Vocabulary of the properties *)

Import MongoVoteRepository RedisRankingRepository.

(** ** One [cast_vote] run *)

Definition new_vote (env : Env) (u c : string) : VoteRecord :=
  {| user_id := u; contestant_id := c; timestamp := now env |}.

(** The counters after the two INCRs for entrant [c]. *)
Definition counted (c : string) (r : gmap string Z) : gmap string Z :=
  (incr TOTAL_SYSTEM_VOTES_KEY (incr (votes_key c) r).1).1.

Definition update_of (c : string) (r : gmap string Z) : VoteUpdate :=
  {| ev_contestant_id := c;
     ev_new_total_votes := (incr (votes_key c) r).2;
     ev_system_total := get_system_total_votes (counted c r) |}.

(** What the ledger write of a run reports: [register_vote_document] on
    the store the run starts from. *)
Definition ledger_write (env : Env) (u c : string) (s : Store) : result bool :=
  (register_vote_document (insert_fault env) (now env) (new_vote env u c) s).2.

(** No store call of the run faults and the notification does not raise. *)
Definition fault_free (env : Env) : Prop :=
  find_fault env = false ∧ insert_fault env = false ∧ incr_fault env = false
  ∧ get_fault env = false ∧ emit env ≠ EmitRaises.

(** An environment in which nothing goes wrong. *)
Definition calm : Env :=
  {| find_fault := false; insert_fault := false; incr_fault := false;
     get_fault := false; emit := Delivered; now := 0 |}.

(** The three outcomes the specification names for a vote. *)
Inductive outcome := Accepted | DuplicateVote | StorageError.

(** Which of them occurs in a run whose only possible fault is in the
    ledger write. *)
Definition occurred (env : Env) (u c : string) (s : Store) : outcome :=
  if has_voted (votes s) u c then DuplicateVote
  else if insert_fault env then StorageError
  else Accepted.

(** The readings of the specification that the code is compared with. *)

(** A vote for an id that is not in the catalog is rejected and changes
    neither ledger nor counters. *)
Definition unknown_entrant_is_rejected : Prop :=
  ∀ env u c s,
    fault_free env →
    MongoContestantRepository.get_by_id s c = None →
    let r := VotingService.cast_vote env u c s in
    r.2 = Returned false ∧ votes r.1 = votes s ∧ redis r.1 = redis s.

(** The caller can tell from the result which outcome occurred. *)
Definition outcomes_told_apart : Prop :=
  ∃ tell : result bool → outcome,
    ∀ env u c s,
      find_fault env = false → incr_fault env = false → get_fault env = false →
      emit env ≠ EmitRaises →
      tell (VotingService.cast_vote env u c s).2 = occurred env u c s.

(** The ledger write and the counter update of the run succeed. *)
Definition committed_and_counted (env : Env) (u c : string) (s : Store) : Prop :=
  find_fault env = false ∧ has_voted (votes s) u c = false
  ∧ insert_fault env = false ∧ incr_fault env = false ∧ get_fault env = false.

(** Whatever the notification does, a committed and counted vote is
    answered with success. *)
Definition notification_never_flips : Prop :=
  ∀ env u c s,
    committed_and_counted env u c s →
    (VotingService.cast_vote env u c s).2 = Returned true.

(** Once a vote is accepted, every later vote of the same pair is
    refused and changes neither ledger nor counters. *)
Definition repeated_vote_always_refused : Prop :=
  ∀ env u c s s1 ops env',
    VotingService.cast_vote env u c s = (s1, Returned true) →
    let again := VotingService.cast_vote env' u c (run ops s1) in
    again.2 ≠ Returned true
    ∧ votes again.1 = votes (run ops s1)
    ∧ redis again.1 = redis (run ops s1).

(** ** The ledger and the counters *)

Definition vote_pair (v : VoteRecord) : string * string :=
  (user_id v, contestant_id v).

(** No two records of the ledger have the same voter and entrant. *)
Definition ledger_unique (s : Store) : Prop :=
  NoDup (vote_pair <$> votes s).

(** The number of ledger records that reference an entrant. *)
Definition records_for (coll : list VoteRecord) (cid : string) : Z :=
  Z.of_nat (length (filter (λ v, contestant_id v = cid) coll)).

(** The sum of the per-entrant counters: the values under the keys
    [contestant:*:votes]. *)
Definition per_entrant_sum (r : gmap string Z) : Z :=
  map_fold (λ k v acc, if is_votes_key k then v + acc else acc) 0 r.

Definition tallies_consistent (s : Store) : Prop :=
  get_system_total_votes (redis s) = per_entrant_sum (redis s)
  ∧ ∀ cid, get_total_votes (redis s) cid = records_for (votes s) cid.

(** Every operation keeps the tallies consistent. *)
Definition tallies_always_consistent : Prop :=
  ∀ o s, tallies_consistent s → tallies_consistent (run_op o s).

(** A run in which the counter store answers every increment, the
    ledger store answers the clear of every bulk load, and every new
    entrant gets an id that no ledger record references. *)
Definition tally_safe (s : Store) (o : op) : Prop :=
  match o with
  | CastVote env _ _ => incr_fault env = false
  | InitializeDatabase env _ => clear_votes_fault env = false
  | AddContestant new_id _ => records_for (votes s) new_id = 0
  | Login _ _ => True
  end.

Fixpoint tally_safe_run (ops : list op) (s : Store) : Prop :=
  match ops with
  | [] => True
  | o :: ops' => tally_safe s o ∧ tally_safe_run ops' (run_op o s)
  end.

(** ** Descriptors *)

(** The value a descriptor holds under a key, when Python takes it for
    true. *)
Definition value_under (item : gmap string json) (k : string) : option json :=
  match item !! k with
  | Some v => if json_truthy v then Some v else None
  | None => None
  end.

Definition name_of (item : gmap string json) : option json :=
  match value_under item "nombre" with
  | Some v => Some v
  | None => value_under item "name"
  end.

Definition category_of (item : gmap string json) : option json :=
  match value_under item "categoria" with
  | Some v => Some v
  | None => value_under item "category"
  end.

(** A descriptor is valid when it supplies a name and a category. *)
Definition valid_descriptor (item : gmap string json) : Prop :=
  is_Some (name_of item) ∧ is_Some (category_of item).

Global Instance valid_descriptor_dec item : Decision (valid_descriptor item).
Proof. unfold valid_descriptor. apply _. Defined.

(** The photo reference of a descriptor: the first true value under
    foto, photo_url, photo, and "default.png" without one. *)
Definition photo_of (item : gmap string json) : json :=
  match value_under item "foto", value_under item "photo_url", value_under item "photo" with
  | Some v, _, _ => v
  | None, Some v, _ => v
  | None, None, Some v => v
  | None, None, None => JString "default.png"
  end.

Definition text_of (v : json) : option string :=
  match v with
  | JString s => Some s
  | _ => None
  end.

(** The contestant a descriptor describes, when its name, its category
    and its photo reference are text. *)
Definition contestant_of (item : gmap string json) : option Contestant :=
  n ← name_of item ≫= text_of;
  c ← category_of item ≫= text_of;
  f ← text_of (photo_of item);
  Some {| c_id := None; nombre := n; categoria := c; foto := f |}.

(** A descriptor that, if valid, carries text for name, category and
    photo. *)
Definition textual (item : gmap string json) : Prop :=
  valid_descriptor item → is_Some (contestant_of item).

(** The catalog document that the bulk load writes for a descriptor
    under the id [oid i]. *)
Definition loaded_doc (oid : nat → string) (i : nat) (item : gmap string json)
    : ContestantDoc :=
  {| doc_id := oid i;
     doc_nombre := name_of item ≫= text_of;
     doc_categoria := category_of item ≫= text_of;
     doc_foto := text_of (photo_of item);
     doc_initial_votes := Some 0 |}.

(** The dashboard entry of a descriptor: its name and category, no votes. *)
Definition entry_of (item : gmap string json) (e : ContestantAdminView) : Prop :=
  Some (av_nombre e) = name_of item ≫= text_of
  ∧ Some (av_categoria e) = category_of item ≫= text_of
  ∧ total_votes e = 0.

(** A load in which no store call faults. *)
Definition calm_load (env : LoadEnv) : Prop :=
  clear_contestants_fault env = false ∧ flushdb_fault env = false
  ∧ clear_votes_fault env = false
  ∧ (∀ i, insert_fault_at env i = false) ∧ (∀ i, set_fault_at env i = false)
  ∧ set_total_fault env = false.

(** The load environment in which nothing goes wrong. *)
Definition quiet (oid : nat → string) : LoadEnv :=
  {| new_oid := oid; clear_contestants_fault := false; flushdb_fault := false;
     clear_votes_fault := false; insert_fault_at := λ _, false;
     set_fault_at := λ _, false; set_total_fault := false |}.

(** A load during which the ledger store does not answer the clear. *)
Definition stuck_ledger : LoadEnv :=
  {| new_oid := λ _, "A"; clear_contestants_fault := false; flushdb_fault := false;
     clear_votes_fault := true; insert_fault_at := λ _, false;
     set_fault_at := λ _, false; set_total_fault := false |}.

(** A load during which the counter store does not answer the flush. *)
Definition stuck_counters : LoadEnv :=
  {| new_oid := λ _, "A"; clear_contestants_fault := false; flushdb_fault := true;
     clear_votes_fault := false; insert_fault_at := λ _, false;
     set_fault_at := λ _, false; set_total_fault := false |}.

(** Sample data for the examples. *)
Definition ana : gmap string json :=
  <["nombre" := JString "Ana"]> (<["categoria" := JString "Dance"]> ∅).
Definition bob : gmap string json :=
  <["name" := JString "Bob"]>
    (<["category" := JString "Song"]> (<["nombre" := JString ""]> ∅)).
Definition nameless : gmap string json :=
  <["categoria" := JString "Song"]> ∅.
Definition numbered : gmap string json :=
  <["nombre" := JNumber 5]> (<["categoria" := JString "Dance"]> ∅).
Definition sample_oid (n : nat) : string :=
  match n with O => "A" | 1%nat => "B" | _ => "C" end.
Definition eva : Contestant :=
  {| c_id := None; nombre := "Eva"; categoria := "Magic"; foto := "eva.png" |}.

(** After every bulk load the dashboard has one entry without votes per
    valid descriptor. *)
Definition every_load_lists_valid_descriptors : Prop :=
  ∀ env json s,
    calm_load env →
    ∃ entries,
      AdminService.get_realtime_dashboard
        (AdminService.initialize_database env json s).1 = Some entries
      ∧ length entries = length (filter valid_descriptor json)
      ∧ Forall (λ e, total_votes e = 0) entries.

(** ** Sorting *)

Definition descending {A} (key : A → Z) (l : list A) : Prop :=
  StronglySorted (λ a b, key b <= key a) l.

(** [l'] keeps, among the elements of equal key, the order they have in [l]. *)
Definition stable_wrt {A} (key : A → Z) (l l' : list A) : Prop :=
  ∀ v, filter (λ a, key a = v) l' = filter (λ a, key a = v) l.

(** ** Users *)

(** Two bytes that are the same letter up to case, or the same byte. *)
Definition same_letter (a b : ascii) : Prop :=
  a = b
  ∨ ((65 <= N_of_ascii a <= 90)%N ∧ N_of_ascii b = (N_of_ascii a + 32)%N)
  ∨ ((65 <= N_of_ascii b <= 90)%N ∧ N_of_ascii a = (N_of_ascii b + 32)%N).

(** Case-insensitive equality of two strings. *)
Fixpoint eq_ignoring_case (s t : string) : Prop :=
  match s, t with
  | EmptyString, EmptyString => True
  | String a s', String b t' => same_letter a b ∧ eq_ignoring_case s' t'
  | _, _ => False
  end.

(** A string of the letters a-z. *)
Fixpoint lowercase_letters (t : string) : Prop :=
  match t with
  | EmptyString => True
  | String b t' => (97 <= N_of_ascii b <= 122)%N ∧ lowercase_letters t'
  end.

(** The record [login] stores and returns for a username. *)
Definition user_of (name : string) : User :=
  {| username := name;
     role := if String.eqb (lower name) "admin" then "admin" else "public" |}.

Definition records_of (coll : list User) (name : string) : list User :=
  filter (λ d, username d = name) coll.

Definition usernames_unique (s : Store) : Prop :=
  NoDup (username <$> users s).

Definition logins (new_id : string) (names : list string) (s : Store) : Store :=
  fold_left (λ s u, (AuthService.login new_id u s).1) names s.

(** ** The catalog and the reports *)

(** A text that is the canonical text of an ObjectId. *)
Definition canonical_id (text : string) : Prop := ObjectId text = Some text.

(** The contestant that the catalog returns for what [add_contestant]
    stored under [new_id]. *)
Definition stored (new_id : string) (c : Contestant) : Contestant :=
  {| c_id := Some new_id; nombre := nombre c; categoria := categoria c;
     foto := foto c |}.

(** The dashboard entry of a catalog document, if the document parses. *)
Definition doc_view (r : gmap string Z) (d : ContestantDoc) : option ContestantAdminView :=
  c ← MongoContestantRepository.parse d;
  Some {| av_id := doc_id d; av_nombre := nombre c; av_categoria := categoria c;
          av_foto := foto c; total_votes := get_total_votes r (doc_id d) |}.

(** A dashboard entry without its votes. *)
Definition public_of (e : ContestantAdminView) : ContestantPublicView :=
  {| pv_id := av_id e; pv_nombre := av_nombre e; pv_categoria := av_categoria e;
     pv_foto := av_foto e |}.

Definition sum_votes (l : list ContestantAdminView) : Z :=
  foldr (λ e acc, total_votes e + acc) 0 l.

Definition in_category (cat : string) (l : list ContestantAdminView)
    : list ContestantAdminView :=
  filter (λ e, av_categoria e = cat) l.

(** The global counter is the number of ledger records. *)
Definition total_counts_ledger (s : Store) : Prop :=
  get_system_total_votes (redis s) = Z.of_nat (length (votes s)).

(** The counter store answers the increment of a vote, and the ledger
    store the clear of a bulk load. *)
Definition counter_answers (o : op) : Prop :=
  match o with
  | CastVote env _ _ => incr_fault env = false
  | InitializeDatabase env _ => clear_votes_fault env = false
  | _ => True
  end.

(** A string without a colon. *)
Fixpoint colon_free (s : string) : Prop :=
  match s with
  | EmptyString => True
  | String c s' => c ≠ ":"%char ∧ colon_free s'
  end.

(** Every catalog document has the three text fields. *)
Definition all_parse (s : Store) : Prop :=
  Forall (λ d, is_Some (MongoContestantRepository.parse d)) (contestants s).

(** The sum of the values of a dictionary. *)
Definition map_sum (m : gmap string Z) : Z :=
  map_fold (λ _ v acc, v + acc) 0 m.

(** What a store can have gained from the loop: documents that parse,
    and counters set to 0. *)
Definition grown (s1 s2 : Store) : Prop :=
  votes s2 = votes s1 ∧ users s2 = users s1 ∧ delivered s2 = delivered s1
  ∧ (∀ k, redis s2 !! k = redis s1 !! k ∨ redis s2 !! k = Some 0)
  ∧ ∃ docs, contestants s2 = contestants s1 ++ docs
            ∧ Forall (λ d, is_Some (MongoContestantRepository.parse d)) docs.

(** * Properties *)

(** ** What one [cast_vote] run does, case by case *)

Lemma has_voted_find coll u c :
  has_voted coll u c = false → find_one coll u c = None.
Proof.
  unfold has_voted. intros H. apply bool_decide_eq_false in H.
  destruct (find_one coll u c); [exfalso; apply H; discriminate | reflexivity].
Qed.

Lemma cast_vote_run env u c s :
  VotingService.cast_vote env u c s =
    if find_fault env then (s, Raised MongoError)
    else if has_voted (votes s) u c then (s, Returned false)
    else if insert_fault env then (s, Returned false)
    else
      let s1 := set_votes (λ l, l ++ [new_vote env u c]) s in
      if incr_fault env then (s1, Raised RedisError)
      else
        let s2 := set_redis (λ _, counted c (redis s)) s1 in
        if get_fault env then (s2, Raised RedisError)
        else match emit env with
             | Delivered =>
                 (set_delivered (λ l, l ++ [update_of c (redis s)]) s2, Returned true)
             | Lost => (s2, Returned true)
             | EmitRaises => (s2, Raised SocketError)
             end.
Proof.
  unfold VotingService.cast_vote, has_user_voted_for, register_vote_document,
    insert_one, increment_vote, sio_emit, store_call, mbind, M_bind, bind,
    try_except, gets, modify, ret, raise.
  destruct (find_fault env); [reflexivity|].
  destruct (has_voted (votes s) u c) eqn:Hv; [reflexivity|].
  destruct (insert_fault env); [reflexivity|].
  cbn [user_id contestant_id]. rewrite (has_voted_find _ _ _ Hv).
  destruct (incr_fault env); [reflexivity|].
  destruct (get_fault env); [reflexivity|].
  destruct (emit env); reflexivity.
Qed.

(** ** The ledger *)

Lemma same_pair_true u c v : same_pair u c v = true ↔ vote_pair v = (u, c).
Proof.
  unfold same_pair, vote_pair. rewrite andb_true_iff, !bool_decide_eq_true.
  split; [intros [-> ->]; reflexivity | intros [= -> ->]; done].
Qed.

Lemma has_voted_true coll u c :
  has_voted coll u c = true ↔ (u, c) ∈ vote_pair <$> coll.
Proof.
  unfold has_voted, find_one. rewrite bool_decide_eq_true.
  induction coll as [|v coll IH]; cbn.
  - split; [done | intros H; inversion H].
  - destruct (same_pair u c v) eqn:E.
    + split; [intros _ | done].
      apply same_pair_true in E. rewrite E. left.
    + rewrite IH. split; [intros H; by right |].
      intros H. apply elem_of_cons in H as [H|H]; [|done].
      symmetry in H. apply same_pair_true in H. congruence.
Qed.

Lemma has_voted_false coll u c :
  has_voted coll u c = false ↔ (u, c) ∉ vote_pair <$> coll.
Proof.
  rewrite <- has_voted_true. by rewrite not_true_iff_false.
Qed.

Lemma has_voted_app coll l u c :
  has_voted coll u c = true → has_voted (coll ++ l) u c = true.
Proof. rewrite !has_voted_true, fmap_app, elem_of_app. by left. Qed.

Lemma create_user_keeps new_id user s :
  let s' := (MongoUserRepository.create_user new_id user s).1 in
  votes s' = votes s ∧ redis s' = redis s ∧ contestants s' = contestants s
  ∧ delivered s' = delivered s.
Proof.
  unfold MongoUserRepository.create_user.
  destruct (MongoUserRepository.update_one user (users s)); cbn; done.
Qed.

Lemma login_keeps new_id u s :
  let s' := (AuthService.login new_id u s).1 in
  votes s' = votes s ∧ redis s' = redis s ∧ contestants s' = contestants s
  ∧ delivered s' = delivered s.
Proof.
  unfold AuthService.login.
  pose proof (create_user_keeps new_id
    {| username := u;
       role := if String.eqb (lower u) "admin" then "admin" else "public" |} s) as H.
  cbn zeta in H.
  destruct (MongoUserRepository.create_user _ _ s) as [s1 r]. exact H.
Qed.

(** An operation other than the reset only appends to the ledger. *)
Lemma votes_run_op o s :
  keeps_ledger o = true → ∃ l, votes (run_op o s) = votes s ++ l.
Proof.
  destruct o as [env u c| | |]; cbn; intros Hk; try discriminate.
  - rewrite cast_vote_run.
    destruct (find_fault env); [exists []; by rewrite app_nil_r|].
    destruct (has_voted _ _ _); [exists []; by rewrite app_nil_r|].
    destruct (insert_fault env); [exists []; by rewrite app_nil_r|].
    exists [new_vote env u c].
    destruct (incr_fault env); [done|].
    destruct (get_fault env); [done|].
    destruct (emit env); done.
  - exists []. by rewrite app_nil_r.
  - exists []. rewrite app_nil_r. apply login_keeps.
Qed.

Lemma votes_run ops s :
  forallb keeps_ledger ops = true → ∃ l, votes (run ops s) = votes s ++ l.
Proof.
  revert s. induction ops as [|o ops IH]; intros s; cbn.
  - exists []. by rewrite app_nil_r.
  - rewrite andb_true_iff. intros [Ho Hops].
    destruct (votes_run_op o s Ho) as [l1 H1].
    destruct (IH (run_op o s) Hops) as [l2 H2].
    exists (l1 ++ l2). unfold run in H2. rewrite H2, H1. by rewrite app_assoc.
Qed.

(** ** Loading descriptors *)

Lemma py_or_truthy v b : json_truthy v = true → py_or v b = v.
Proof. intros H. unfold py_or. by rewrite H. Qed.

Lemma value_under_truthy item k v : value_under item k = Some v → json_truthy v = true.
Proof.
  unfold value_under. destruct (item !! k) as [w|]; [|done].
  destruct (json_truthy w) eqn:E; [|done]. by intros [= <-].
Qed.

Lemma py_or_dict_get item k b :
  py_or (dict_get item k) b
  = match value_under item k with Some v => v | None => b end.
Proof.
  unfold py_or, dict_get, value_under. destruct (item !! k) as [v|]; [|done].
  cbn. by destruct (json_truthy v).
Qed.

Lemma truthy_dict_get item k :
  json_truthy (dict_get item k) = bool_decide (is_Some (value_under item k)).
Proof.
  unfold dict_get, value_under. destruct (item !! k) as [v|]; [|done].
  cbn. by destruct (json_truthy v).
Qed.

(** What [a.get(k1) or a.get(k2)] is, for a descriptor that has a true
    value under one of the keys, and whether it is true at all. *)
Lemma chosen_value item k1 k2 :
  let first := match value_under item k1 with
               | Some v => Some v
               | None => value_under item k2
               end in
  json_truthy (py_or (dict_get item k1) (dict_get item k2))
  = bool_decide (is_Some first)
  ∧ ∀ v, first = Some v → py_or (dict_get item k1) (dict_get item k2) = v.
Proof.
  cbn zeta. rewrite py_or_dict_get.
  destruct (value_under item k1) as [v1|] eqn:E1.
  - rewrite (value_under_truthy _ _ _ E1). split; [done | by intros v [= <-]].
  - rewrite truthy_dict_get. split; [done|]. intros v Hv.
    unfold dict_get. unfold value_under in Hv.
    destruct (item !! k2) as [w|]; [|done]. destruct (json_truthy w); [|done].
    by injection Hv as <-.
Qed.

Lemma photo_chain item :
  py_or (py_or (py_or (dict_get item "foto") (dict_get item "photo_url"))
           (dict_get item "photo"))
    (JString "default.png")
  = photo_of item.
Proof.
  unfold photo_of. rewrite (py_or_dict_get item "foto").
  destruct (value_under item "foto") as [v1|] eqn:E1.
  { pose proof (value_under_truthy _ _ _ E1) as Hv.
    by rewrite !(py_or_truthy v1) by done. }
  rewrite (py_or_dict_get item "photo_url").
  destruct (value_under item "photo_url") as [v2|] eqn:E2.
  { pose proof (value_under_truthy _ _ _ E2) as Hv.
    by rewrite !(py_or_truthy v2) by done. }
  rewrite (py_or_dict_get item "photo"). by destruct (value_under item "photo").
Qed.

Lemma new_contestant_run nv cv fv s :
  AdminService.new_contestant nv cv fv s
  = match (n ← text_of nv; c ← text_of cv; f ← text_of fv;
           Some {| c_id := None; nombre := n; categoria := c; foto := f |}) with
    | Some c => (s, Returned c)
    | None => (s, Raised ValidationError)
    end.
Proof.
  destruct nv; try reflexivity; destruct cv; try reflexivity;
    destruct fv; reflexivity.
Qed.

Lemma contestant_of_Some item c :
  contestant_of item = Some c →
  name_of item ≫= text_of = Some (nombre c)
  ∧ category_of item ≫= text_of = Some (categoria c)
  ∧ text_of (photo_of item) = Some (foto c).
Proof.
  unfold contestant_of.
  destruct (name_of item ≫= text_of) as [n|]; [|done].
  destruct (category_of item ≫= text_of) as [ct|]; [|done].
  destruct (text_of (photo_of item)) as [f|]; [|done].
  cbn. by intros [= <-].
Qed.

(** What the loop body does, case by case. *)
Lemma load_item_run env i item s :
  AdminService.load_item env i item s =
    if decide (valid_descriptor item) then
      match contestant_of item with
      | None => (s, Raised ValidationError)
      | Some _ =>
          if insert_fault_at env i then (s, Raised MongoError)
          else
            let s1 := set_contestants
                        (λ l, l ++ [loaded_doc (new_oid env) (length (contestants s)) item])
                        s in
            if set_fault_at env i then (s1, Raised RedisError)
            else (set_redis
                    (insert (votes_key (new_oid env (length (contestants s)))) 0) s1,
                  Returned tt)
      end
    else (s, Returned tt).
Proof.
  unfold AdminService.load_item.
  destruct (chosen_value item "nombre" "name") as [Hn1 Hn2].
  destruct (chosen_value item "categoria" "category") as [Hc1 Hc2].
  cbn zeta in Hn1, Hn2, Hc1, Hc2. fold (name_of item) in Hn1, Hn2.
  fold (category_of item) in Hc1, Hc2. rewrite Hn1, Hc1, photo_chain.
  destruct (decide (valid_descriptor item)) as [[[nv Hnv] [cv Hcv]]|Hv].
  - rewrite !bool_decide_eq_true_2 by eauto. cbn [negb orb].
    rewrite (Hn2 nv Hnv), (Hc2 cv Hcv).
    unfold mbind, M_bind, bind. rewrite new_contestant_run.
    unfold contestant_of. rewrite Hnv, Hcv. cbn [mbind option_bind].
    destruct (text_of nv) as [n|] eqn:En; [|done]. cbn [mbind option_bind].
    destruct (text_of cv) as [c|] eqn:Ec; [|done]. cbn [mbind option_bind].
    destruct (text_of (photo_of item)) as [f|] eqn:Hf; [|done].
    cbn [mbind option_bind]. unfold store_call, raise, modify.
    destruct (insert_fault_at env i); [done|]. cbn.
    unfold loaded_doc. rewrite Hnv, Hcv, Hf. cbn. rewrite En, Ec.
    by destruct (set_fault_at env i).
  - unfold valid_descriptor in Hv.
    destruct (decide (is_Some (name_of item))) as [H1|H1];
      [|by rewrite (bool_decide_eq_false_2 _ H1)].
    destruct (decide (is_Some (category_of item))) as [H2|H2];
      [|rewrite (bool_decide_eq_false_2 _ H2); by rewrite orb_true_r].
    exfalso. by apply Hv.
Qed.

Lemma for_each_cons {A} (body : nat → A → M unit) i x l s :
  for_each body i (x :: l) s
  = match body i x s with
    | (s', Returned _) => for_each body (S i) l s'
    | (s', Raised e) => (s', Raised e)
    end.
Proof. reflexivity. Qed.

Lemma loaded_doc_parses oid i item :
  is_Some (contestant_of item) →
  is_Some (MongoContestantRepository.parse (loaded_doc oid i item)).
Proof.
  intros [c Hc]. destruct (contestant_of_Some _ _ Hc) as (Hn & Hct & Hf).
  unfold MongoContestantRepository.parse, loaded_doc. cbn. rewrite Hn, Hct, Hf. eauto.
Qed.

Lemma grown_refl s : grown s s.
Proof.
  repeat split; [by left|]. exists []. by rewrite app_nil_r.
Qed.

Lemma grown_trans s1 s2 s3 : grown s1 s2 → grown s2 s3 → grown s1 s3.
Proof.
  intros (Hv1 & Hu1 & Hd1 & Hr1 & docs1 & Hc1 & Hp1)
         (Hv2 & Hu2 & Hd2 & Hr2 & docs2 & Hc2 & Hp2).
  split; [congruence|]. split; [congruence|]. split; [congruence|]. split.
  - intros k. destruct (Hr2 k) as [H|H]; [|by right]. rewrite H. apply Hr1.
  - exists (docs1 ++ docs2). split; [by rewrite Hc2, Hc1, app_assoc|].
    by apply Forall_app.
Qed.

Lemma load_item_grows env i item s :
  grown s (AdminService.load_item env i item s).1.
Proof.
  rewrite load_item_run. destruct (decide (valid_descriptor item)); [|apply grown_refl].
  destruct (contestant_of item) as [c|] eqn:Hc; [|apply grown_refl].
  destruct (insert_fault_at env i); [apply grown_refl|]. cbn zeta.
  assert (Forall (λ d, is_Some (MongoContestantRepository.parse d))
            [loaded_doc (new_oid env) (length (contestants s)) item]) as Hp.
  { repeat constructor. apply loaded_doc_parses. by rewrite Hc. }
  destruct (set_fault_at env i); cbn.
  - repeat split; [by left | eauto].
  - repeat split; [|eauto]. intros k.
    destruct (decide (votes_key (new_oid env (length (contestants s))) = k)) as [<-|Hne].
    + right. apply lookup_insert_eq.
    + left. by apply lookup_insert_ne.
Qed.

Lemma load_loop_grows env i json_data s :
  grown s (for_each (AdminService.load_item env) i json_data s).1.
Proof.
  revert i s. induction json_data as [|item json_data IH]; intros i s; [apply grown_refl|].
  rewrite for_each_cons. pose proof (load_item_grows env i item s) as H1.
  destruct (AdminService.load_item env i item s) as [s' [[]|e]]; [|exact H1].
  exact (grown_trans _ _ _ H1 (IH (S i) s')).
Qed.

(** A loop over textual descriptors with no store fault runs through and
    writes one document per valid descriptor. *)
Lemma load_loop_clean env i json_data s :
  (∀ j, insert_fault_at env j = false) →
  (∀ j, set_fault_at env j = false) →
  Forall textual json_data →
  let r := for_each (AdminService.load_item env) i json_data s in
  r.2 = Returned tt
  ∧ contestants r.1
    = contestants s
      ++ imap (λ j, loaded_doc (new_oid env) (length (contestants s) + j))
           (filter valid_descriptor json_data)
  ∧ ∀ d, d ∈ imap (λ j, loaded_doc (new_oid env) (length (contestants s) + j))
               (filter valid_descriptor json_data) →
         redis r.1 !! votes_key (doc_id d) = Some 0.
Proof.
  intros Hi Hs Ht. revert i s. induction Ht as [|item json_data Hitem _ IH]; intros i s.
  - cbn. split; [done|]. split; [by rewrite app_nil_r|]. intros d Hd. inversion Hd.
  - cbn zeta. rewrite for_each_cons, load_item_run.
    destruct (decide (valid_descriptor item)) as [Hv|Hv].
    + destruct (Hitem Hv) as [c Hc]. rewrite Hc, Hi, Hs. cbv beta iota zeta.
      match goal with |- context [for_each _ (S i) json_data ?s1] =>
        destruct (IH (S i) s1) as (H1 & H2 & H3);
        pose proof (load_loop_grows env (S i) json_data s1) as (_ & _ & _ & Hr & _) end.
      cbn [contestants set_redis set_contestants redis] in H2, H3, Hr.
      rewrite length_app in H2, H3. cbn [length] in H2, H3.
      rewrite filter_cons_True by done. rewrite imap_cons.
      assert (imap ((λ j, loaded_doc (new_oid env) (length (contestants s) + j)) ∘ S)
                (filter valid_descriptor json_data)
              = imap (λ j, loaded_doc (new_oid env) (length (contestants s) + 1 + j))
                  (filter valid_descriptor json_data)) as Himap.
      { apply imap_ext. intros j x _. cbn. f_equal. lia. }
      rewrite Himap. split; [done|]. split.
      * rewrite H2, <- app_assoc. cbn. by rewrite Nat.add_0_r.
      * intros d Hd. apply elem_of_cons in Hd as [->|Hd]; [|by apply H3].
        cbn [doc_id loaded_doc]. rewrite Nat.add_0_r.
        destruct (Hr (votes_key (new_oid env (length (contestants s))))) as [H|H];
          [|done].
        rewrite H. apply lookup_insert_eq.
    + rewrite filter_cons_False by done. apply IH.
Qed.

(** What [initialize_database] does, case by case. *)
Lemma initialize_database_run env json_data s :
  AdminService.initialize_database env json_data s =
    if clear_contestants_fault env then (s, Raised MongoError)
    else
      let s1 := MongoContestantRepository.clear_all s in
      if flushdb_fault env then (s1, Raised RedisError)
      else
        let s2 := RedisRankingRepository.clear_all s1 in
        if clear_votes_fault env then (s2, Raised MongoError)
        else
          let s3 := MongoVoteRepository.clear_all s2 in
          match for_each (AdminService.load_item env) 0 json_data s3 with
          | (s4, Returned _) =>
              if set_total_fault env then (s4, Raised RedisError)
              else (set_redis (insert TOTAL_SYSTEM_VOTES_KEY 0) s4, Returned tt)
          | (s4, Raised e) => (s4, Raised e)
          end.
Proof.
  unfold AdminService.initialize_database, store_call, mbind, M_bind, bind, modify,
    raise.
  destruct (clear_contestants_fault env); [done|].
  destruct (flushdb_fault env); [done|].
  destruct (clear_votes_fault env); [done|]. cbn zeta.
  destruct (for_each _ 0 json_data _) as [s4 [[]|e]]; [|done].
  by destruct (set_total_fault env).
Qed.

(** The store after a bulk load whose three clears went through: an
    empty ledger, counters that all read 0, and a catalog of documents
    that parse. *)
Lemma initialize_database_cleared env json_data s :
  clear_contestants_fault env = false → flushdb_fault env = false →
  clear_votes_fault env = false →
  let s' := (AdminService.initialize_database env json_data s).1 in
  votes s' = [] ∧ users s' = users s ∧ delivered s' = delivered s
  ∧ (∀ k, int_or_0 (redis s' !! k) = 0)
  ∧ Forall (λ d, is_Some (MongoContestantRepository.parse d)) (contestants s').
Proof.
  intros H1 H2 H3. cbn zeta. rewrite initialize_database_run, H1, H2, H3. cbn zeta.
  match goal with |- context [for_each _ 0 json_data ?s3] =>
    pose proof (load_loop_grows env 0 json_data s3) as (Hv & Hu & Hd & Hr & docs & Hc & Hp);
    destruct (for_each (AdminService.load_item env) 0 json_data s3) as [s4 r] end.
  cbn in Hv, Hu, Hd, Hr, Hc.
  assert (∀ k, int_or_0 (redis s4 !! k) = 0) as Hz.
  { intros k. destruct (Hr k) as [H|H]; rewrite H; [by rewrite lookup_empty | done]. }
  assert (Forall (λ d, is_Some (MongoContestantRepository.parse d)) (contestants s4))
    as Hp4 by by rewrite Hc.
  destruct r as [[]|e]; [|done]. destruct (set_total_fault env); [done|].
  cbn. repeat split; try done. intros k.
  destruct (decide (TOTAL_SYSTEM_VOTES_KEY = k)) as [<-|Hne].
  - by rewrite lookup_insert_eq.
  - rewrite lookup_insert_ne by done. apply Hz.
Qed.

(** A bulk load never changes users or delivered events, and it leaves
    ledger and counters alone unless it gets to flush the counters. *)
Lemma initialize_database_aborted env json_data s :
  let s' := (AdminService.initialize_database env json_data s).1 in
  users s' = users s ∧ delivered s' = delivered s
  ∧ (clear_contestants_fault env = true ∨ flushdb_fault env = true →
     votes s' = votes s ∧ redis s' = redis s
     ∧ (contestants s' = contestants s ∨ contestants s' = [])).
Proof.
  cbn zeta. rewrite initialize_database_run.
  destruct (clear_contestants_fault env) eqn:H1; [by repeat split; eauto|].
  destruct (flushdb_fault env) eqn:H2; [by repeat split; eauto|].
  destruct (clear_votes_fault env) eqn:H3.
  { cbn. split; [done|]. split; [done|]. by intros [?|?]. }
  pose proof (initialize_database_cleared env json_data s H1 H2 H3) as (_ & Hu & Hd & _).
  cbn zeta in Hu, Hd. rewrite initialize_database_run, H1, H2, H3 in Hu, Hd.
  split; [done|]. split; [done|]. by intros [?|?].
Qed.

(** A bulk load leaves the ledger as it was or empties it. *)
Lemma initialize_database_votes env json_data s :
  let s' := (AdminService.initialize_database env json_data s).1 in
  votes s' = votes s ∨ votes s' = [].
Proof.
  cbn zeta. destruct (clear_votes_fault env) eqn:H3.
  - left. rewrite initialize_database_run, H3.
    destruct (clear_contestants_fault env); [done|].
    by destruct (flushdb_fault env).
  - destruct (clear_contestants_fault env) eqn:H1;
      [left; by rewrite initialize_database_run, H1|].
    destruct (flushdb_fault env) eqn:H2;
      [left; by rewrite initialize_database_run, H1, H2|].
    right. by apply initialize_database_cleared.
Qed.

Lemma ledger_unique_run_op o s : ledger_unique s → ledger_unique (run_op o s).
Proof.
  unfold ledger_unique. intros Hs.
  destruct o as [env u c|env json_data| |]; cbn [run_op].
  - rewrite cast_vote_run.
    destruct (find_fault env); [done|].
    destruct (has_voted _ _ _) eqn:Hv; [done|].
    destruct (insert_fault env); [done|].
    assert (NoDup (vote_pair <$> votes s ++ [new_vote env u c])) as Hn.
    { rewrite fmap_app. apply NoDup_app. split; [done|]. split.
      - intros p Hp Hq. apply list_elem_of_singleton in Hq. subst p.
        by apply has_voted_false in Hv.
      - apply NoDup_singleton. }
    destruct (incr_fault env); [done|].
    destruct (get_fault env); [done|].
    destruct (emit env); done.
  - destruct (initialize_database_votes env json_data s) as [H|H];
      cbn zeta in H; rewrite H; [done | apply NoDup_nil_2].
  - cbn. done.
  - by rewrite (proj1 (login_keeps _ _ _)).
Qed.

Lemma ledger_unique_run ops s : ledger_unique s → ledger_unique (run ops s).
Proof.
  revert s. induction ops as [|o ops IH]; intros s Hs; [done|].
  cbn. apply IH. by apply ledger_unique_run_op.
Qed.

(** ** Accepted and repeated votes *)

Lemma has_voted_new_vote env u c coll :
  has_voted (coll ++ [new_vote env u c]) u c = true.
Proof.
  apply has_voted_true. rewrite fmap_app, elem_of_app. right. cbn. left.
Qed.

Lemma cast_vote_accepted env u c s s1 :
  VotingService.cast_vote env u c s = (s1, Returned true) →
  has_voted (votes s) u c = false
  ∧ ledger_write env u c s = Returned true
  ∧ votes s1 = votes s ++ [new_vote env u c]
  ∧ redis s1 = counted c (redis s).
Proof.
  rewrite cast_vote_run. unfold ledger_write, register_vote_document, insert_one,
    store_call, try_except, mbind, M_bind, bind, gets, modify, ret, raise.
  destruct (find_fault env); [discriminate|].
  destruct (has_voted (votes s) u c) eqn:Hv; [discriminate|].
  destruct (insert_fault env); [discriminate|].
  cbn [user_id contestant_id new_vote]. rewrite (has_voted_find _ _ _ Hv). cbn zeta.
  destruct (incr_fault env); [discriminate|].
  destruct (get_fault env); [discriminate|].
  destruct (emit env); intros [= <-]; done.
Qed.

Lemma cast_vote_repeated env u c s :
  has_voted (votes s) u c = true →
  VotingService.cast_vote env u c s
  = (s, if find_fault env then Raised MongoError else Returned false).
Proof.
  intros Hv. rewrite cast_vote_run, Hv. by destruct (find_fault env).
Qed.

(** C1, as the specification has it, fails: [initialize_database] clears
    the ledger, and the vote of the same voter for the same entrant is
    then accepted a second time, with a new ledger record and a counter
    increment. *)
Lemma reset_reopens_the_vote :
  let s1 := (VotingService.cast_vote calm "u1" "A" empty_store).1 in
  let s2 := run [InitializeDatabase (quiet sample_oid) [ana]] s1 in
  let again := VotingService.cast_vote calm "u1" "A" s2 in
  VotingService.cast_vote calm "u1" "A" empty_store = (s1, Returned true)
  ∧ votes s2 = []
  ∧ again.2 = Returned true
  ∧ votes again.1 = [new_vote calm "u1" "A"]
  ∧ get_total_votes (redis again.1) "A" = 1
  ∧ ¬ repeated_vote_always_refused.
Proof.
  intros s1 s2 again.
  assert (VotingService.cast_vote calm "u1" "A" empty_store = (s1, Returned true))
    as Hfirst by reflexivity.
  assert (again.2 = Returned true) as Hagain by reflexivity.
  split; [done|]. split; [reflexivity|]. split; [done|]. split; [reflexivity|].
  split; [reflexivity|]. intros H.
  destruct (H calm "u1" "A" empty_store s1
              [InitializeDatabase (quiet sample_oid) [ana]] calm Hfirst) as [Hn _].
  by apply Hn.
Qed.

(** C1, amended.  The ledger never holds two records with the same voter
    and entrant, whatever operations run; and once a vote of [u] for [c]
    is accepted, every later [cast_vote] with that pair, for as long as no
    [initialize_database] runs in between, leaves the whole store as it is
    (no new ledger record, no counter increment), is not a success, and,
    when the ledger can be read, returns [False], which the endpoint
    reports as the 409 "already voted" response. *)
Theorem one_accepted_vote_per_pair env u c s s1 ops env' :
  ledger_unique s →
  VotingService.cast_vote env u c s = (s1, Returned true) →
  forallb keeps_ledger ops = true →
  let s2 := run ops s1 in
  let again := VotingService.cast_vote env' u c s2 in
  (∀ any_ops, ledger_unique (run any_ops s))
  ∧ again.1 = s2
  ∧ again.2 ≠ Returned true
  ∧ (find_fault env' = false →
     again.2 = Returned false
     ∧ (cast_vote_endpoint env' u c s2).2
       = HttpError 409 "Ya has votado por este participante.").
Proof.
  intros Hu Hacc Hops s2 again.
  split; [intros any_ops; by apply ledger_unique_run|].
  destruct (cast_vote_accepted _ _ _ _ _ Hacc) as (_ & _ & Hv1 & _).
  destruct (votes_run ops s1 Hops) as [l Hl].
  assert (has_voted (votes s2) u c = true) as Hv2.
  { subst s2. rewrite Hl, Hv1. apply has_voted_app, has_voted_new_vote. }
  assert (again = (s2, if find_fault env' then Raised MongoError else Returned false))
    as Hag by (by apply cast_vote_repeated).
  unfold cast_vote_endpoint. fold again. rewrite Hag. cbn.
  split; [done|]. split; [by destruct (find_fault env')|].
  by intros ->.
Qed.

Lemma one_accepted_vote_per_pair_witness :
  let s1 := (VotingService.cast_vote calm "u1" "A" empty_store).1 in
  let s2 := run [CastVote calm "u2" "A"; Login "x" "u2"] s1 in
  (VotingService.cast_vote calm "u1" "A" s2).1 = s2
  ∧ (VotingService.cast_vote calm "u1" "A" s2).2 = Returned false.
Proof.
  intros s1 s2.
  destruct (one_accepted_vote_per_pair calm "u1" "A" empty_store s1
              [CastVote calm "u2" "A"; Login "x" "u2"] calm)
    as (_ & H1 & _ & H2).
  - constructor.
  - reflexivity.
  - reflexivity.
  - split; [exact H1 | exact (proj1 (H2 eq_refl))].
Defined.

(** ** Keys and counters *)

Lemma length_append (a b : string) :
  String.length (a +:+ b) = (String.length a + String.length b)%nat.
Proof. induction a as [|x a IH]; simpl; [done | by f_equal]. Qed.

Lemma append_cancel_r (a b t : string) : a +:+ t = b +:+ t → a = b.
Proof.
  revert b. induction a as [|x a IH]; intros [|y b] H.
  - done.
  - exfalso. apply (f_equal String.length) in H.
    rewrite !length_append in H. simpl in H. lia.
  - exfalso. apply (f_equal String.length) in H.
    rewrite !length_append in H. simpl in H. lia.
  - simpl in H. injection H as -> H. f_equal. by apply IH.
Qed.

Lemma votes_key_inj c1 c2 : votes_key c1 = votes_key c2 → c1 = c2.
Proof.
  unfold votes_key. intros H. apply String.app_inj in H.
  by apply append_cancel_r in H.
Qed.

Lemma votes_key_not_total c : votes_key c ≠ TOTAL_SYSTEM_VOTES_KEY.
Proof. unfold votes_key, TOTAL_SYSTEM_VOTES_KEY. cbn. discriminate. Qed.

Lemma substring_all (t : string) : String.substring 0 (String.length t) t = t.
Proof. induction t as [|x t IH]; cbn; [done | by rewrite IH]. Qed.

Lemma substring_append (a t : string) :
  String.substring (String.length a) (String.length t) (a +:+ t) = t.
Proof. induction a as [|x a IH]; cbn; [apply substring_all | done]. Qed.

Lemma has_suffix_append (a t : string) : has_suffix t (a +:+ t) = true.
Proof.
  unfold has_suffix. rewrite length_append.
  replace (String.length a + String.length t - String.length t)%nat
    with (String.length a) by lia.
  rewrite substring_append, String.eqb_refl, andb_true_r.
  apply Nat.leb_le. lia.
Qed.

Lemma is_votes_key_votes_key c : is_votes_key (votes_key c) = true.
Proof.
  unfold is_votes_key, votes_key.
  assert (String.prefix "contestant:" ("contestant:" +:+ c +:+ ":votes") = true) as ->.
  { cbn. by destruct (c +:+ ":votes"). }
  assert (has_suffix ":votes" ("contestant:" +:+ c +:+ ":votes") = true) as ->
    by exact (has_suffix_append ("contestant:" +:+ c) ":votes").
  cbn [andb]. apply Nat.leb_le. rewrite !length_append. cbn. lia.
Qed.

Lemma is_votes_key_total : is_votes_key TOTAL_SYSTEM_VOTES_KEY = false.
Proof. reflexivity. Qed.

Lemma tally_step_comm (j1 j2 : string) (z1 z2 y : Z) :
  (if is_votes_key j1 then z1 + (if is_votes_key j2 then z2 + y else y)
   else (if is_votes_key j2 then z2 + y else y))
  = (if is_votes_key j2 then z2 + (if is_votes_key j1 then z1 + y else y)
     else (if is_votes_key j1 then z1 + y else y)).
Proof. destruct (is_votes_key j1), (is_votes_key j2); lia. Qed.

Lemma per_entrant_sum_insert k v (r : gmap string Z) :
  per_entrant_sum (<[k := v]> r)
  = if is_votes_key k then per_entrant_sum r - int_or_0 (r !! k) + v
    else per_entrant_sum r.
Proof.
  unfold per_entrant_sum.
  destruct (r !! k) as [x|] eqn:Hk.
  - rewrite <- (insert_delete_eq r k v).
    rewrite map_fold_insert_L;
      [| intros; apply tally_step_comm | apply lookup_delete_eq].
    rewrite (map_fold_delete_L _ 0 k x r);
      [| intros; apply tally_step_comm | done].
    cbn. destruct (is_votes_key k); lia.
  - rewrite map_fold_insert_L; [| intros; apply tally_step_comm | done].
    cbn. destruct (is_votes_key k); lia.
Qed.

Lemma per_entrant_sum_empty : per_entrant_sum ∅ = 0.
Proof. unfold per_entrant_sum. apply map_fold_empty. Qed.

Lemma counted_entrant c (r : gmap string Z) :
  get_total_votes (counted c r) c = get_total_votes r c + 1.
Proof.
  unfold counted, get_total_votes, incr. cbn.
  rewrite lookup_insert_ne by (symmetry; apply votes_key_not_total).
  by rewrite lookup_insert_eq.
Qed.

Lemma counted_other c c' (r : gmap string Z) :
  c' ≠ c → get_total_votes (counted c r) c' = get_total_votes r c'.
Proof.
  intros Hne. unfold counted, get_total_votes, incr. cbn.
  rewrite lookup_insert_ne by (symmetry; apply votes_key_not_total).
  rewrite lookup_insert_ne; [done|]. intros H. apply votes_key_inj in H. congruence.
Qed.

Lemma counted_total c (r : gmap string Z) :
  get_system_total_votes (counted c r) = get_system_total_votes r + 1.
Proof.
  unfold counted, get_system_total_votes, incr. cbn.
  rewrite lookup_insert_eq. cbn.
  by rewrite lookup_insert_ne by apply votes_key_not_total.
Qed.

Lemma counted_sum c (r : gmap string Z) :
  per_entrant_sum (counted c r) = per_entrant_sum r + 1.
Proof.
  unfold counted, incr. cbn.
  rewrite !per_entrant_sum_insert, is_votes_key_total, is_votes_key_votes_key. lia.
Qed.

(** ** Votes for ids the catalog does not know *)

Lemma cast_vote_fault_free env u c s :
  fault_free env → has_voted (votes s) u c = false →
  let r := VotingService.cast_vote env u c s in
  r.2 = Returned true
  ∧ votes r.1 = votes s ++ [new_vote env u c]
  ∧ redis r.1 = counted c (redis s)
  ∧ contestants r.1 = contestants s.
Proof.
  intros (Hf & Hi & Hc & Hg & He) Hv. cbn zeta.
  rewrite cast_vote_run, Hf, Hv, Hi, Hc, Hg. cbn zeta.
  destruct (emit env); done.
Qed.

Lemma cast_vote_catalog env u c s docs :
  VotingService.cast_vote env u c (set_contestants (λ _, docs) s)
  = (set_contestants (λ _, docs) (VotingService.cast_vote env u c s).1,
     (VotingService.cast_vote env u c s).2).
Proof.
  rewrite !cast_vote_run. cbn [votes set_contestants].
  destruct (find_fault env); [done|].
  destruct (has_voted (votes s) u c); [done|].
  destruct (insert_fault env); [done|]. cbn zeta.
  destruct (incr_fault env); [done|].
  destruct (get_fault env); [done|].
  destruct (emit env); done.
Qed.

(** C2, as the specification has it, fails: with an empty catalog a vote
    for the id "ghost" is accepted, written to the ledger and counted. *)
Lemma unknown_entrant_vote_is_accepted :
  MongoContestantRepository.get_by_id empty_store "ghost" = None
  ∧ (VotingService.cast_vote calm "u1" "ghost" empty_store).2 = Returned true
  ∧ votes (VotingService.cast_vote calm "u1" "ghost" empty_store).1
    = [new_vote calm "u1" "ghost"]
  ∧ get_total_votes (redis (VotingService.cast_vote calm "u1" "ghost" empty_store).1)
      "ghost" = 1
  ∧ ¬ unknown_entrant_is_rejected.
Proof.
  split; [reflexivity|]. split; [reflexivity|]. split; [reflexivity|].
  split; [reflexivity|].
  intros H. specialize (H calm "u1" "ghost" empty_store).
  destruct H as (H & _ & _); [by repeat split | reflexivity | discriminate H].
Qed.

(** C2, amended.  [cast_vote] does not consult the catalog: a vote for an
    id that is not in the catalog, from a voter with no record for that
    id and with no fault, returns [True], appends the ledger record and
    adds one to the counter of that id and to the global counter; and the
    result and the effects of any run are the same whatever the catalog
    holds. *)
Theorem cast_vote_ignores_catalog env u c s :
  MongoContestantRepository.get_by_id s c = None →
  has_voted (votes s) u c = false →
  fault_free env →
  let r := VotingService.cast_vote env u c s in
  r.2 = Returned true
  ∧ votes r.1 = votes s ++ [new_vote env u c]
  ∧ get_total_votes (redis r.1) c = get_total_votes (redis s) c + 1
  ∧ get_system_total_votes (redis r.1) = get_system_total_votes (redis s) + 1
  ∧ ∀ env' u' c' docs,
      VotingService.cast_vote env' u' c' (set_contestants (λ _, docs) s)
      = (set_contestants (λ _, docs) (VotingService.cast_vote env' u' c' s).1,
         (VotingService.cast_vote env' u' c' s).2).
Proof.
  intros _ Hv Hf r.
  destruct (cast_vote_fault_free env u c s Hf Hv) as (H1 & H2 & H3 & _).
  fold r in H1, H2, H3.
  split; [done|]. split; [done|]. rewrite H3.
  split; [apply counted_entrant|]. split; [apply counted_total|].
  intros. apply cast_vote_catalog.
Qed.

Lemma cast_vote_ignores_catalog_witness :
  let r := VotingService.cast_vote calm "u1" "ghost" empty_store in
  r.2 = Returned true ∧ votes r.1 = [new_vote calm "u1" "ghost"].
Proof.
  intros r.
  destruct (cast_vote_ignores_catalog calm "u1" "ghost" empty_store)
    as (H1 & H2 & _).
  - reflexivity.
  - reflexivity.
  - unfold fault_free, calm; cbn. repeat split; discriminate.
  - split; [exact H1 | exact H2].
Defined.

(** ** Outcomes *)

(** C3, as the specification has it, fails: a repeated vote and a failed
    ledger write give the caller the same result, [False], and the same
    409 response, so no reading of the result tells them apart. *)
Lemma duplicate_and_storage_failure_look_alike :
  let voted := (VotingService.cast_vote calm "u1" "A" empty_store).1 in
  let broken := {| find_fault := false; insert_fault := true; incr_fault := false;
                   get_fault := false; emit := Delivered; now := 0 |} in
  occurred calm "u1" "A" voted = DuplicateVote
  ∧ occurred broken "u1" "A" empty_store = StorageError
  ∧ (VotingService.cast_vote calm "u1" "A" voted).2 = Returned false
  ∧ (VotingService.cast_vote broken "u1" "A" empty_store).2 = Returned false
  ∧ (cast_vote_endpoint calm "u1" "A" voted).2
    = (cast_vote_endpoint broken "u1" "A" empty_store).2
  ∧ ¬ outcomes_told_apart.
Proof.
  intros voted broken.
  split; [reflexivity|]. split; [reflexivity|]. split; [reflexivity|].
  split; [reflexivity|]. split; [reflexivity|].
  intros [tell H].
  pose proof (H calm "u1" "A" voted eq_refl eq_refl eq_refl) as H1.
  pose proof (H broken "u1" "A" empty_store eq_refl eq_refl eq_refl) as H2.
  assert ((VotingService.cast_vote calm "u1" "A" voted).2
          = (VotingService.cast_vote broken "u1" "A" empty_store).2) as E
    by reflexivity.
  rewrite E in H1. rewrite H2 in H1; [|discriminate]. 
  assert (occurred calm "u1" "A" voted = DuplicateVote) as E1 by reflexivity.
  assert (occurred broken "u1" "A" empty_store = StorageError) as E2 by reflexivity.
  rewrite E1, E2 in H1. 
  assert (StorageError = DuplicateVote) as E3 by (apply H1; discriminate).
  discriminate E3.
Qed.

Lemma ledger_write_eq env u c s :
  ledger_write env u c s
  = Returned (negb (insert_fault env) && negb (has_voted (votes s) u c)).
Proof.
  unfold ledger_write, register_vote_document, insert_one, store_call, try_except,
    mbind, M_bind, bind, gets, modify, ret, raise.
  destruct (insert_fault env); [done|]. cbn [user_id contestant_id new_vote negb andb].
  destruct (has_voted (votes s) u c) eqn:Hv.
  - unfold has_voted in Hv. apply bool_decide_eq_true in Hv.
    destruct (find_one (votes s) u c); done.
  - by rewrite (has_voted_find _ _ _ Hv).
Qed.

(** C3, amended.  The result of [cast_vote] is a boolean.  In a run whose
    ledger lookup answers, a repeated vote and a failed ledger write both
    return [False] and leave the store as it is, and the endpoint answers
    both with the same 409 response; [True] is returned only for an
    accepted vote, whose record is then in the ledger; and an accepted
    vote returns [True] when nothing after the ledger write raises. *)
Theorem cast_vote_result_is_boolean env u c s :
  find_fault env = false →
  let r := VotingService.cast_vote env u c s in
  (occurred env u c s ≠ Accepted →
     r = (s, Returned false)
     ∧ (cast_vote_endpoint env u c s).2
       = HttpError 409 "Ya has votado por este participante.")
  ∧ (r.2 = Returned true →
     occurred env u c s = Accepted ∧ votes r.1 = votes s ++ [new_vote env u c])
  ∧ (occurred env u c s = Accepted →
     incr_fault env = false → get_fault env = false → emit env ≠ EmitRaises →
     r.2 = Returned true).
Proof.
  intros Hf r. unfold cast_vote_endpoint. fold r. subst r.
  unfold occurred. rewrite cast_vote_run, Hf.
  destruct (has_voted (votes s) u c) eqn:Hv; [by repeat split|].
  destruct (insert_fault env); [by repeat split|]. cbn zeta.
  split; [done|].
  destruct (incr_fault env); [by repeat split|].
  destruct (get_fault env); [by repeat split|].
  destruct (emit env); by repeat split.
Qed.

Lemma cast_vote_result_is_boolean_witness :
  let broken := {| find_fault := false; insert_fault := true; incr_fault := false;
                   get_fault := false; emit := Delivered; now := 0 |} in
  VotingService.cast_vote broken "u1" "A" empty_store = (empty_store, Returned false)
  ∧ (VotingService.cast_vote calm "u1" "A" empty_store).2 = Returned true.
Proof.
  intros broken. split.
  - destruct (cast_vote_result_is_boolean broken "u1" "A" empty_store) as (H & _ & _).
    + reflexivity.
    + apply H. discriminate.
  - destruct (cast_vote_result_is_boolean calm "u1" "A" empty_store) as (_ & _ & H).
    + reflexivity.
    + apply H; [reflexivity | reflexivity | reflexivity | discriminate].
Defined.

(** ** Ordering of ledger, counters and notification *)

(** C4.  When the ledger write of a run reports failure, the run is not
    accepted and leaves the whole store, counters and notification
    channel included, as it is; and whenever a run changes a counter or
    emits a notification, its ledger write reported success and the
    record is in the ledger. *)
Theorem counters_follow_ledger_commit env u c s :
  let r := VotingService.cast_vote env u c s in
  (ledger_write env u c s = Returned false → r.1 = s ∧ r.2 ≠ Returned true)
  ∧ (redis r.1 ≠ redis s ∨ delivered r.1 ≠ delivered s →
     ledger_write env u c s = Returned true
     ∧ votes r.1 = votes s ++ [new_vote env u c]).
Proof.
  intros r. subst r. rewrite ledger_write_eq, cast_vote_run.
  destruct (find_fault env).
  { split; [done|]. intros [H|H]; by destruct H. }
  destruct (has_voted (votes s) u c).
  { split; [done|]. intros [H|H]; by destruct H. }
  destruct (insert_fault env).
  { split; [done|]. intros [H|H]; by destruct H. }
  cbn zeta. split; [discriminate|]. intros _. cbn [negb andb].
  destruct (incr_fault env); [done|].
  destruct (get_fault env); [done|].
  destruct (emit env); done.
Qed.

Lemma counters_follow_ledger_commit_witness :
  let broken := {| find_fault := false; insert_fault := true; incr_fault := false;
                   get_fault := false; emit := Delivered; now := 0 |} in
  (VotingService.cast_vote broken "u1" "A" empty_store).1 = empty_store
  ∧ ledger_write calm "u1" "A" empty_store = Returned true.
Proof.
  intros broken. split.
  - apply (proj1 (counters_follow_ledger_commit broken "u1" "A" empty_store)).
    reflexivity.
  - apply (proj2 (counters_follow_ledger_commit calm "u1" "A" empty_store)).
    left. discriminate.
Defined.

(** ** Notification *)

(** C5, as the specification has it, fails: when [sio.emit] raises, the
    vote is in the ledger and counted, and the caller gets the exception
    (a 500 response) instead of success. *)
Lemma raising_emit_flips_the_response :
  let noisy := {| find_fault := false; insert_fault := false; incr_fault := false;
                  get_fault := false; emit := EmitRaises; now := 0 |} in
  let r := VotingService.cast_vote noisy "u1" "A" empty_store in
  committed_and_counted noisy "u1" "A" empty_store
  ∧ votes r.1 = [new_vote noisy "u1" "A"]
  ∧ get_total_votes (redis r.1) "A" = 1
  ∧ r.2 = Raised SocketError
  ∧ (cast_vote_endpoint noisy "u1" "A" empty_store).2
    = HttpError 500 "Internal Server Error"
  ∧ ¬ notification_never_flips.
Proof.
  intros noisy r.
  split; [by repeat split|]. split; [reflexivity|]. split; [reflexivity|].
  split; [reflexivity|]. split; [reflexivity|].
  intros H. specialize (H noisy "u1" "A" empty_store).
  assert (committed_and_counted noisy "u1" "A" empty_store) as Hc by (by repeat split).
  specialize (H Hc). discriminate H.
Qed.

(** C5, amended.  For a vote whose ledger write and counter update
    succeed: when [sio.emit] returns, whether the event reached the
    observers or was lost, the caller receives [True]; when [sio.emit]
    raises, the exception reaches the caller, which the endpoint answers
    with 500.  In both cases the record stays in the ledger and the
    counters stay incremented. *)
Theorem notification_outcome env u c s :
  committed_and_counted env u c s →
  let r := VotingService.cast_vote env u c s in
  votes r.1 = votes s ++ [new_vote env u c]
  ∧ redis r.1 = counted c (redis s)
  ∧ (emit env = Delivered →
     r.2 = Returned true ∧ delivered r.1 = delivered s ++ [update_of c (redis s)])
  ∧ (emit env = Lost → r.2 = Returned true ∧ delivered r.1 = delivered s)
  ∧ (emit env = EmitRaises →
     r.2 = Raised SocketError ∧ delivered r.1 = delivered s
     ∧ (cast_vote_endpoint env u c s).2 = HttpError 500 "Internal Server Error").
Proof.
  intros (Hf & Hv & Hi & Hc & Hg) r. unfold cast_vote_endpoint. fold r. subst r.
  rewrite cast_vote_run, Hf, Hv, Hi, Hc, Hg. cbn zeta.
  destruct (emit env); by repeat split.
Qed.

Lemma notification_outcome_witness :
  let quiet := {| find_fault := false; insert_fault := false; incr_fault := false;
                  get_fault := false; emit := Lost; now := 0 |} in
  (VotingService.cast_vote quiet "u1" "A" empty_store).2 = Returned true.
Proof.
  intros quiet.
  destruct (notification_outcome quiet "u1" "A" empty_store) as (_ & _ & _ & H & _).
  - unfold committed_and_counted. repeat split.
  - apply H. reflexivity.
Defined.

(** ** Tallies *)

Lemma records_for_app coll v cid :
  records_for (coll ++ [v]) cid
  = records_for coll cid + (if decide (contestant_id v = cid) then 1 else 0).
Proof.
  unfold records_for. rewrite filter_app, length_app.
  destruct (decide (contestant_id v = cid)) as [H|H].
  - rewrite filter_cons_True by done. cbn. lia.
  - rewrite filter_cons_False by done. cbn. lia.
Qed.

Lemma per_entrant_sum_zero (r : gmap string Z) :
  (∀ k, int_or_0 (r !! k) = 0) → per_entrant_sum r = 0.
Proof.
  induction r as [|k x r Hk IH] using map_ind; intros H.
  - apply per_entrant_sum_empty.
  - rewrite per_entrant_sum_insert, Hk. cbn.
    assert (x = 0) as ->.
    { specialize (H k). by rewrite lookup_insert_eq in H. }
    assert (per_entrant_sum r = 0) as ->.
    { apply IH. intros j. destruct (decide (k = j)) as [<-|Hne].
      - by rewrite Hk.
      - specialize (H j). by rewrite lookup_insert_ne in H. }
    by destruct (is_votes_key k).
Qed.

Lemma tallies_counted s c v :
  contestant_id v = c →
  tallies_consistent s →
  get_system_total_votes (counted c (redis s)) = per_entrant_sum (counted c (redis s))
  ∧ ∀ cid, get_total_votes (counted c (redis s)) cid = records_for (votes s ++ [v]) cid.
Proof.
  intros Hc [Ht Hp]. split.
  - rewrite counted_total, counted_sum. lia.
  - intros cid. rewrite records_for_app, Hc.
    destruct (decide (c = cid)) as [<-|Hne].
    + rewrite counted_entrant, Hp. lia.
    + rewrite counted_other by done. rewrite Hp. lia.
Qed.

Lemma tallies_cast_vote env u c s :
  incr_fault env = false →
  tallies_consistent s →
  tallies_consistent (VotingService.cast_vote env u c s).1.
Proof.
  intros Hi Hs. rewrite cast_vote_run, Hi.
  destruct (find_fault env); [done|].
  destruct (has_voted (votes s) u c); [done|].
  destruct (insert_fault env); [done|]. cbn zeta.
  pose proof (tallies_counted s c (new_vote env u c) eq_refl Hs) as H.
  destruct (get_fault env); [exact H|].
  destruct (emit env); exact H.
Qed.

Lemma tallies_cleared s :
  votes s = [] → (∀ k, int_or_0 (redis s !! k) = 0) → tallies_consistent s.
Proof.
  intros Hv Hz. split.
  - unfold get_system_total_votes. rewrite Hz. symmetry. by apply per_entrant_sum_zero.
  - intros cid. unfold get_total_votes. by rewrite Hz, Hv.
Qed.

(** A bulk load whose three clears are answered leaves consistent
    tallies behind, whatever the store was and wherever the load stops
    after them. *)
Lemma tallies_initialize_fresh env json_data s :
  clear_contestants_fault env = false → flushdb_fault env = false →
  clear_votes_fault env = false →
  tallies_consistent (AdminService.initialize_database env json_data s).1.
Proof.
  intros H1 H2 H3.
  destruct (initialize_database_cleared env json_data s H1 H2 H3) as (Hv & _ & _ & Hz & _).
  by apply tallies_cleared.
Qed.

(** A bulk load keeps the tallies consistent as long as the ledger store
    answers its clear: a fault before the counters are flushed leaves
    ledger and counters as they were. *)
Lemma tallies_initialize env json_data s :
  clear_votes_fault env = false →
  tallies_consistent s →
  tallies_consistent (AdminService.initialize_database env json_data s).1.
Proof.
  intros H3 Hs.
  destruct (initialize_database_aborted env json_data s) as (_ & _ & Ha).
  cbn zeta in Ha.
  destruct (clear_contestants_fault env) eqn:H1;
    [|destruct (flushdb_fault env) eqn:H2].
  - destruct Ha as (Hv & Hr & _); [by left|].
    unfold tallies_consistent. by rewrite Hv, Hr.
  - destruct Ha as (Hv & Hr & _); [by right|].
    unfold tallies_consistent. by rewrite Hv, Hr.
  - by apply tallies_initialize_fresh.
Qed.

Lemma tallies_add_contestant new_id c s :
  records_for (votes s) new_id = 0 →
  tallies_consistent s →
  tallies_consistent (AdminService.add_contestant new_id c s).1.
Proof.
  intros Hn [Ht Hp]. unfold tallies_consistent. cbn. split.
  - unfold get_system_total_votes.
    rewrite lookup_insert_ne by apply votes_key_not_total.
    rewrite per_entrant_sum_insert, is_votes_key_votes_key.
    fold (get_total_votes (redis s) new_id). rewrite Hp, Hn.
    unfold get_system_total_votes in Ht. lia.
  - intros cid. unfold get_total_votes.
    destruct (decide (new_id = cid)) as [<-|Hne].
    + rewrite lookup_insert_eq. cbn. by rewrite Hn.
    + rewrite lookup_insert_ne; [apply Hp|].
      intros H. by apply votes_key_inj in H.
Qed.

Lemma tallies_run_op o s :
  tally_safe s o → tallies_consistent s → tallies_consistent (run_op o s).
Proof.
  destruct o as [env u c|env json_data|new_id c|new_id u]; cbn [tally_safe run_op];
    intros Hsafe Hs.
  - by apply tallies_cast_vote.
  - by apply tallies_initialize.
  - by apply tallies_add_contestant.
  - destruct (login_keeps new_id u s) as (Hv & Hr & _).
    destruct Hs as [Ht Hp]. unfold tallies_consistent. rewrite Hv, Hr. done.
Qed.

(** C6, as the specification has it, fails: when the counter store does
    not answer the increment, [cast_vote] has already written the ledger
    record, and the store is left with one record for the entrant and a
    counter of 0. *)
Lemma failed_increment_breaks_tallies :
  let deaf := {| find_fault := false; insert_fault := false; incr_fault := true;
                 get_fault := false; emit := Delivered; now := 0 |} in
  let s := run_op (CastVote deaf "u1" "A") empty_store in
  tallies_consistent empty_store
  ∧ records_for (votes s) "A" = 1
  ∧ get_total_votes (redis s) "A" = 0
  ∧ ¬ tallies_consistent s
  ∧ ¬ tallies_always_consistent.
Proof.
  intros deaf s.
  assert (tallies_consistent empty_store) as H0.
  { split; [reflexivity | intros cid; reflexivity]. }
  assert (¬ tallies_consistent s) as Hs.
  { intros [_ H]. specialize (H "A"). discriminate H. }
  split; [done|]. split; [reflexivity|]. split; [reflexivity|]. split; [done|].
  intros H. apply Hs. by apply H.
Qed.

(** The hypothesis on the bulk load is needed: the counters are flushed
    before the ledger is cleared, and a ledger store that does not answer
    the clear leaves the old records next to empty counters. *)
Lemma failed_ledger_clear_breaks_tallies :
  let s := run [CastVote calm "u1" "A"] empty_store in
  let s' := run_op (InitializeDatabase stuck_ledger []) s in
  tallies_consistent s
  ∧ records_for (votes s') "A" = 1
  ∧ get_total_votes (redis s') "A" = 0
  ∧ ¬ tallies_consistent s'.
Proof.
  intros s s'. split.
  { apply (tallies_cast_vote calm "u1" "A" empty_store); [reflexivity|].
    split; [reflexivity | intros cid; reflexivity]. }
  split; [reflexivity|]. split; [reflexivity|].
  intros [_ H]. specialize (H "A"). discriminate H.
Qed.

(** C6, amended.  In a run in which the counter store answers every
    increment of [cast_vote], the ledger store answers the clear of every
    [initialize_database], and every entrant added by [add_contestant]
    gets an id that no ledger record references, every operation
    ([cast_vote], [initialize_database], [add_contestant], [login]) keeps
    the tallies consistent: the global counter is the sum of the
    per-entrant counters and each per-entrant counter is the number of
    ledger records for that entrant.  All other faults of
    [initialize_database] (clearing the catalog, flushing the counters,
    writing a document or a counter of the loop, setting the global
    counter) are allowed.  An [initialize_database] whose three clears are
    answered establishes consistent tallies from any store. *)
Theorem tallies_preserved ops s :
  tallies_consistent s →
  tally_safe_run ops s →
  tallies_consistent (run ops s)
  ∧ ∀ env json_data s',
      clear_contestants_fault env = false → flushdb_fault env = false →
      clear_votes_fault env = false →
      tallies_consistent (AdminService.initialize_database env json_data s').1.
Proof.
  intros Hs Hsafe. split; [|intros; by apply tallies_initialize_fresh].
  revert s Hs Hsafe. induction ops as [|o ops IH]; intros s Hs Hsafe; [done|].
  destruct Hsafe as [Ho Hops]. cbn. apply IH; [|done]. by apply tallies_run_op.
Qed.

Lemma tallies_preserved_witness :
  tallies_consistent
    (run [InitializeDatabase (quiet sample_oid) [ana; nameless; bob];
          CastVote calm "u1" "A"; CastVote calm "u1" "A"; CastVote calm "u2" "B";
          InitializeDatabase stuck_counters [ana];
          AddContestant "D" eva; Login "x" "admin"] empty_store).
Proof.
  apply (tallies_preserved
           [InitializeDatabase (quiet sample_oid) [ana; nameless; bob];
            CastVote calm "u1" "A"; CastVote calm "u1" "A"; CastVote calm "u2" "B";
            InitializeDatabase stuck_counters [ana];
            AddContestant "D" eva; Login "x" "admin"] empty_store).
  - split; [reflexivity | intros cid; reflexivity].
  - cbn [tally_safe_run tally_safe]. repeat split; reflexivity.
Defined.

(** ** The dashboard after a bulk load *)

Lemma dashboard_cons d n c f ds vs us r dl entries :
  doc_nombre d = Some n → doc_categoria d = Some c → doc_foto d = Some f →
  AdminService.get_realtime_dashboard
    {| contestants := ds; votes := vs; users := us; redis := r; delivered := dl |}
  = Some entries →
  AdminService.get_realtime_dashboard
    {| contestants := d :: ds; votes := vs; users := us; redis := r; delivered := dl |}
  = Some ({| av_id := doc_id d; av_nombre := n; av_categoria := c; av_foto := f;
             total_votes := get_total_votes r (doc_id d) |} :: entries).
Proof.
  unfold AdminService.get_realtime_dashboard, MongoContestantRepository.get_all.
  cbn [contestants redis]. intros Hn Hc Hf He.
  cbn [omap list_omap]. unfold MongoContestantRepository.parse at 1.
  rewrite Hn, Hc, Hf. cbn [mapM c_id nombre categoria foto mbind option_bind].
  rewrite He. reflexivity.
Qed.

Lemma imap_related {A B} (f : nat → A → B) l :
  Forall2 (λ x y, ∃ i, y = f i x) l (imap f l).
Proof.
  revert f. induction l as [|x l IH]; intros f; cbn; constructor; [eauto|].
  eapply Forall2_impl; [apply (IH (f ∘ S))|].
  intros x' y [i ->]. by exists (S i).
Qed.

Lemma dashboard_loaded oid vs us dl (r : gmap string Z) items docs :
  Forall2 (λ item d, ∃ i, d = loaded_doc oid i item) items docs →
  Forall (λ item, is_Some (contestant_of item)) items →
  (∀ d, d ∈ docs → r !! votes_key (doc_id d) = Some 0) →
  ∃ entries,
    AdminService.get_realtime_dashboard
      {| contestants := docs; votes := vs; users := us; redis := r; delivered := dl |}
    = Some entries
    ∧ Forall2 entry_of items entries.
Proof.
  induction 1 as [|item d items docs [i ->] _ IH]; intros Htext Hr.
  - exists []. split; [reflexivity | constructor].
  - apply Forall_cons in Htext as [[c Hc] Htext].
    destruct IH as (entries & He & Hf); [done | intros d' Hd'; apply Hr; by right|].
    destruct (contestant_of_Some _ _ Hc) as (Hn & Hct & Hp).
    eexists. split.
    { by apply (dashboard_cons (loaded_doc oid i item) (nombre c) (categoria c) (foto c)). }
    constructor; [|done]. unfold entry_of. cbn [av_nombre av_categoria total_votes].
    rewrite Hn, Hct. repeat split.
    unfold get_total_votes. rewrite (Hr (loaded_doc oid i item)) by left. reflexivity.
Qed.

Lemma entries_without_votes items entries :
  Forall2 entry_of items entries → Forall (λ e, total_votes e = 0) entries.
Proof.
  induction 1 as [|item e items entries (_ & _ & H0) _ IH]; constructor; done.
Qed.

(** What a bulk load without store faults over textual descriptors
    leaves behind. *)
Lemma initialize_database_clean env json_data s :
  calm_load env → Forall textual json_data →
  let r := AdminService.initialize_database env json_data s in
  let docs := imap (loaded_doc (new_oid env)) (filter valid_descriptor json_data) in
  r.2 = Returned tt
  ∧ contestants r.1 = docs
  ∧ votes r.1 = [] ∧ users r.1 = users s ∧ delivered r.1 = delivered s
  ∧ redis r.1 !! TOTAL_SYSTEM_VOTES_KEY = Some 0
  ∧ (∀ d, d ∈ docs → redis r.1 !! votes_key (doc_id d) = Some 0)
  ∧ ∀ k, int_or_0 (redis r.1 !! k) = 0.
Proof.
  intros (H1 & H2 & H3 & Hi & Hs & Ht) Htext. cbn zeta.
  destruct (initialize_database_cleared env json_data s H1 H2 H3)
    as (Hv & Hu & Hd & Hz & _).
  cbn zeta in Hv, Hu, Hd, Hz. revert Hv Hu Hd Hz.
  rewrite initialize_database_run, H1, H2, H3, Ht. cbn zeta.
  match goal with |- context [for_each _ 0 json_data ?s3] =>
    destruct (load_loop_clean env 0 json_data s3 Hi Hs Htext) as (Hr & Hc & Hk);
    destruct (for_each (AdminService.load_item env) 0 json_data s3) as [s4 r] end.
  cbn in Hr, Hc, Hk. subst r. cbn. intros Hv Hu Hd Hz.
  repeat split; try done.
  - apply lookup_insert_eq.
  - intros d Hin. rewrite lookup_insert_ne by apply not_eq_sym, votes_key_not_total.
    by apply Hk.
Qed.

(** C8, as the specification has it, fails: a descriptor whose name is
    true for Python but is no text, here the number 5, passes the skip
    test and makes [Contestant(...)] raise; the load stops there, the
    descriptors after it are never read, and the dashboard shows one
    entry for three valid descriptors. *)
Lemma non_text_descriptor_stops_the_load :
  let json_data := [ana; numbered; bob] in
  let r := AdminService.initialize_database (quiet sample_oid) json_data empty_store in
  calm_load (quiet sample_oid)
  ∧ Forall valid_descriptor json_data
  ∧ r.2 = Raised ValidationError
  ∧ AdminService.get_realtime_dashboard r.1
    = Some [{| av_id := "A"; av_nombre := "Ana"; av_categoria := "Dance";
               av_foto := "default.png"; total_votes := 0 |}]
  ∧ ¬ every_load_lists_valid_descriptors.
Proof.
  intros json_data r.
  assert (calm_load (quiet sample_oid)) as Hcalm by (by repeat split).
  assert (Forall valid_descriptor json_data) as Hvalid.
  { repeat constructor; vm_compute; eauto. }
  assert (AdminService.get_realtime_dashboard r.1
          = Some [{| av_id := "A"; av_nombre := "Ana"; av_categoria := "Dance";
                     av_foto := "default.png"; total_votes := 0 |}]) as Hd
    by (vm_compute; reflexivity).
  split; [done|]. split; [done|]. split; [vm_compute; reflexivity|]. split; [done|].
  intros H. destruct (H (quiet sample_oid) json_data empty_store Hcalm)
    as (entries & He & Hl & _).
  fold r in He. rewrite Hd in He. injection He as <-.
  vm_compute in Hl. discriminate Hl.
Qed.

(** C8, amended.  For a list of descriptors in which every valid
    descriptor carries text for its name, its category and its photo
    reference, and a load during which every store call is answered,
    [initialize_database] returns, and [get_realtime_dashboard] after it
    returns a dashboard with exactly one entry per valid descriptor, in
    the order of the descriptors, each with the descriptor's name and
    category and with [total_votes = 0]; a descriptor is valid iff it
    holds a value that Python takes for true under the key nombre or name
    and one under the key categoria or category, and the other
    descriptors are skipped. *)
Theorem dashboard_after_initialize env json_data s :
  calm_load env →
  Forall textual json_data →
  ∃ entries,
    (AdminService.initialize_database env json_data s).2 = Returned tt
    ∧ AdminService.get_realtime_dashboard
        (AdminService.initialize_database env json_data s).1
      = Some entries
    ∧ Forall2 entry_of (filter valid_descriptor json_data) entries
    ∧ length entries = length (filter valid_descriptor json_data)
    ∧ Forall (λ e, total_votes e = 0) entries.
Proof.
  intros Hcalm Htext.
  destruct (initialize_database_clean env json_data s Hcalm Htext)
    as (Hr & Hc & _ & _ & _ & _ & Hk & _).
  cbn zeta in Hr, Hc, Hk.
  destruct (AdminService.initialize_database env json_data s) as [s' r].
  cbn [fst snd] in *.
  destruct (dashboard_loaded (new_oid env) (votes s') (users s') (delivered s')
              (redis s') (filter valid_descriptor json_data) (contestants s'))
    as (entries & He & Hf).
  - rewrite Hc. apply imap_related.
  - apply Forall_forall. intros item Hin.
    apply list_elem_of_filter in Hin as [Hv Hin].
    rewrite Forall_forall in Htext. by apply Htext.
  - rewrite Hc. exact Hk.
  - exists entries. split; [done|]. split; [by destruct s'|]. split; [done|]. split.
    + symmetry. by apply Forall2_length in Hf.
    + by apply (entries_without_votes (filter valid_descriptor json_data)).
Qed.

Lemma dashboard_after_initialize_witness :
  ∃ entries,
    AdminService.get_realtime_dashboard
      (AdminService.initialize_database (quiet sample_oid) [ana; nameless; bob]
         empty_store).1
    = Some entries
    ∧ length entries = 2%nat.
Proof.
  destruct (dashboard_after_initialize (quiet sample_oid) [ana; nameless; bob]
              empty_store) as (entries & _ & He & _ & Hl & _).
  - by repeat split.
  - repeat constructor; intros Hv;
      first [ by (vm_compute; eauto)
            | destruct Hv as [[? H] _]; vm_compute in H; discriminate H ].
  - exists entries. split; [exact He | exact Hl].
Defined.

(** ** Sorting the dashboard *)

Section sorting.
Context {A : Type} (key : A → Z).

Lemma insert_desc_perm x l : insert_desc key x l ≡ₚ x :: l.
Proof.
  induction l as [|y l IH]; cbn; [done|].
  destruct (key y <? key x); [done|].
  rewrite IH. apply perm_swap.
Qed.

Lemma descending_bound y l b :
  descending key (y :: l) → b ∈ y :: l → key b <= key y.
Proof.
  intros Hd Hb. apply StronglySorted_inv in Hd as [_ Hall].
  apply elem_of_cons in Hb as [->|Hb]; [lia|].
  rewrite Forall_forall in Hall. by apply Hall.
Qed.

Lemma insert_desc_descending x l :
  descending key l → descending key (insert_desc key x l).
Proof.
  induction l as [|y l IH]; intros Hd; cbn.
  - repeat constructor.
  - destruct (key y <? key x) eqn:E.
    + apply Z.ltb_lt in E. constructor; [done|].
      apply Forall_forall. intros b Hb.
      pose proof (descending_bound y l b Hd Hb). lia.
    + apply Z.ltb_ge in E.
      pose proof Hd as Hd'. apply StronglySorted_inv in Hd' as [Hl Hall].
      constructor; [by apply IH|].
      rewrite insert_desc_perm. constructor; [lia | done].
Qed.

Lemma filter_above x l v :
  descending key l → (∀ b, b ∈ l → key b < key x) → key x = v →
  filter (λ a, key a = v) l = [].
Proof.
  intros _ Hlt <-. induction l as [|y l IH]; [done|].
  rewrite filter_cons_False.
  - apply IH. intros b Hb. apply Hlt. by right.
  - pose proof (Hlt y ltac:(left)). lia.
Qed.

Lemma insert_desc_filter x l v :
  descending key l →
  filter (λ a, key a = v) (insert_desc key x l)
  = filter (λ a, key a = v) l ++ filter (λ a, key a = v) [x].
Proof.
  induction l as [|y l IH]; intros Hd.
  - done.
  - cbn [insert_desc]. destruct (key y <? key x) eqn:E.
    + apply Z.ltb_lt in E.
      destruct (decide (key x = v)) as [Hx|Hx].
      * assert (filter (λ a, key a = v) (y :: l) = []) as Hnil.
        { apply (filter_above x); [done | | done].
          intros b Hb. pose proof (descending_bound y l b Hd Hb). lia. }
        rewrite (filter_cons_True _ x (y :: l)) by done. rewrite Hnil.
        by rewrite (filter_cons_True _ x []) by done.
      * rewrite (filter_cons_False _ x (y :: l)) by done.
        rewrite (filter_cons_False _ x []) by done.
        by rewrite filter_nil, app_nil_r.
    + apply StronglySorted_inv in Hd as [Hl _].
      destruct (decide (key y = v)) as [Hy|Hy].
      * rewrite !(filter_cons_True _ y) by done. rewrite IH by done. done.
      * rewrite !(filter_cons_False _ y) by done. by apply IH.
Qed.

Lemma fold_insert_desc l acc :
  descending key acc →
  let r := fold_left (λ acc x, insert_desc key x acc) l acc in
  r ≡ₚ acc ++ l ∧ descending key r
  ∧ ∀ v, filter (λ a, key a = v) r
         = filter (λ a, key a = v) acc ++ filter (λ a, key a = v) l.
Proof.
  revert acc. induction l as [|x l IH]; intros acc Hd; cbn zeta.
  - rewrite app_nil_r. split; [done|]. split; [done|].
    intros v. by rewrite filter_nil, app_nil_r.
  - cbn [fold_left].
    destruct (IH (insert_desc key x acc) (insert_desc_descending x acc Hd))
      as (Hp & Hs & Hf).
    split; [|split; [done|]].
    + rewrite Hp, insert_desc_perm. apply Permutation_middle.
    + intros v. rewrite Hf, insert_desc_filter by done.
      rewrite <- app_assoc. f_equal.
      change (x :: l) with ([x] ++ l). by rewrite filter_app.
Qed.

Lemma sort_reverse_spec l :
  sort_reverse key l ≡ₚ l
  ∧ descending key (sort_reverse key l)
  ∧ stable_wrt key l (sort_reverse key l).
Proof.
  destruct (fold_insert_desc l []) as (Hp & Hs & Hf); [constructor|].
  split; [done|]. split; [done|]. intros v. exact (Hf v).
Qed.

(** A list has one stable descending arrangement. *)
Lemma stable_descending_unique l1 l2 :
  descending key l1 → descending key l2 →
  (∀ v, filter (λ a, key a = v) l1 = filter (λ a, key a = v) l2) →
  l1 = l2.
Proof.
  revert l2. induction l1 as [|x l1 IH]; intros [|y l2] H1 H2 Hf.
  - done.
  - specialize (Hf (key y)). rewrite filter_cons_True in Hf by done. done.
  - specialize (Hf (key x)). rewrite filter_cons_True in Hf by done. done.
  - assert (key x <= key y) as Hxy.
    { apply (descending_bound y l2 x H2).
      assert (x ∈ filter (λ a, key a = key x) (y :: l2)) as Hin.
      { rewrite <- Hf. rewrite filter_cons_True by done. left. }
      by apply list_elem_of_filter in Hin as [_ ?]. }
    assert (key y <= key x) as Hyx.
    { apply (descending_bound x l1 y H1).
      assert (y ∈ filter (λ a, key a = key y) (x :: l1)) as Hin.
      { rewrite Hf. rewrite filter_cons_True by done. left. }
      by apply list_elem_of_filter in Hin as [_ ?]. }
    assert (x = y) as ->.
    { pose proof (Hf (key x)) as H.
      rewrite filter_cons_True in H by done.
      rewrite (filter_cons_True _ y) in H by lia. by injection H. }
    f_equal. apply StronglySorted_inv in H1 as [H1 _].
    apply StronglySorted_inv in H2 as [H2 _].
    apply IH; [done | done |]. intros v. specialize (Hf v).
    destruct (decide (key y = v)) as [Hv|Hv].
    + rewrite !(filter_cons_True _ y) in Hf by done. by injection Hf.
    + by rewrite !(filter_cons_False _ y) in Hf by done.
Qed.

End sorting.

(** Every contestant that [get_all] returns has an id, so the dashboard
    is always produced, with one entry per contestant. *)
Lemma dashboard_total s :
  ∃ full,
    AdminService.get_realtime_dashboard s = Some full
    ∧ length full = length (MongoContestantRepository.get_all s).
Proof.
  unfold AdminService.get_realtime_dashboard.
  match goal with |- context [mapM ?f ?l] =>
    assert (is_Some (mapM f l)) as [full Hfull] end.
  { apply mapM_is_Some_2, Forall_forall. intros c Hc.
    unfold MongoContestantRepository.get_all in Hc.
    apply list_elem_of_omap in Hc as (d & _ & Hd).
    unfold MongoContestantRepository.parse in Hd.
    destruct (doc_nombre d), (doc_categoria d), (doc_foto d); try discriminate.
    injection Hd as <-. cbn. done. }
  exists full. split; [done|].
  apply mapM_Some_1, Forall2_length in Hfull. done.
Qed.

(** C7.  [get_top_3] is the first three entries (all of them when the
    catalog has fewer) of the dashboard sorted by [total_votes] in
    descending order with ties in catalog order: the sorted list is a
    rearrangement of the dashboard, is descending, keeps the dashboard
    order among entries with equal votes, and is the only list with these
    properties. *)
Theorem top_3_is_sorted_dashboard s :
  ∃ full sorted,
    AdminService.get_realtime_dashboard s = Some full
    ∧ AdminService.get_top_3 s = Some (take 3 sorted)
    ∧ sorted ≡ₚ full
    ∧ descending total_votes sorted
    ∧ stable_wrt total_votes full sorted
    ∧ (∀ l, descending total_votes l → stable_wrt total_votes full l → l = sorted)
    ∧ length (take 3 sorted)
      = Nat.min 3 (length (MongoContestantRepository.get_all s)).
Proof.
  destruct (dashboard_total s) as (full & Hfull & Hlen).
  destruct (sort_reverse_spec total_votes full) as (Hp & Hd & Hs).
  exists full, (sort_reverse total_votes full).
  split; [done|]. split.
  { unfold AdminService.get_top_3. by rewrite Hfull. }
  split; [done|]. split; [done|]. split; [done|]. split.
  - intros l Hl Hst. apply (stable_descending_unique total_votes); [done | done |].
    intros v. by rewrite (Hst v), (Hs v).
  - rewrite length_take. by rewrite (Permutation_length Hp), Hlen.
Qed.

(** ** Roles *)

Lemma lower_ascii_letter a b :
  (97 <= N_of_ascii b <= 122)%N → lower_ascii a = b ↔ same_letter a b.
Proof.
  intros Hb. unfold lower_ascii, same_letter.
  pose proof (N_ascii_bounded a) as Ha.
  destruct ((65 <=? N_of_ascii a)%N && (N_of_ascii a <=? 90)%N) eqn:E.
  - apply andb_true_iff in E as [E1 E2].
    apply N.leb_le in E1. apply N.leb_le in E2. split.
    + intros <-. right. left. split; [lia|].
      apply N_ascii_embedding. lia.
    + intros [->|[[_ H]|[H _]]]; [lia | | lia].
      rewrite <- H. apply ascii_N_embedding.
  - split; [by left|].
    intros [H|[[H _]|[H _]]]; [done | | lia].
    exfalso. apply andb_false_iff in E as [E|E]; apply N.leb_gt in E; lia.
Qed.

Lemma lower_eq_ignoring_case s t :
  lowercase_letters t → lower s = t ↔ eq_ignoring_case s t.
Proof.
  revert t. induction s as [|a s IH]; intros [|b t] Ht; cbn; try done.
  destruct Ht as [Hb Ht]. rewrite <- (IH t Ht), <- (lower_ascii_letter a b Hb).
  split; [intros [= -> ->]; done | intros [-> ->]; done].
Qed.

Lemma login_returns new_id u s : (AuthService.login new_id u s).2 = user_of u.
Proof.
  unfold AuthService.login, user_of.
  by destruct (MongoUserRepository.create_user _ _ s).
Qed.

Lemma role_admin_iff u :
  role (user_of u) = "admin" ↔ eq_ignoring_case u "admin".
Proof.
  assert (lowercase_letters "admin") as Hl by (cbn; lia).
  pose proof (lower_eq_ignoring_case u "admin" Hl) as Hci.
  unfold user_of. cbn [role]. destruct (String.eqb (lower u) "admin") eqn:E.
  - apply String.eqb_eq in E. by apply Hci in E.
  - apply String.eqb_neq in E. rewrite Hci in E. by split.
Qed.

(** C9.  The role [login] gives depends on the username alone: it is
    'admin' exactly when the username equals "admin" up to the case of
    its letters, and 'public' otherwise; the store and the id the user
    store hands out have no influence, so two calls with the same
    username give the same role. *)
Theorem login_role_from_username new_id u s :
  let user := (AuthService.login new_id u s).2 in
  username user = u
  ∧ (role user = "admin" ↔ eq_ignoring_case u "admin")
  ∧ (role user = "public" ↔ ¬ eq_ignoring_case u "admin")
  ∧ ∀ new_id' s', role (AuthService.login new_id' u s').2 = role user.
Proof.
  cbn zeta.
  assert (∀ new_id' s',
            role (AuthService.login new_id' u s').2
            = role (AuthService.login new_id u s).2) as Hsame
    by (intros; by rewrite !login_returns).
  rewrite login_returns in *. split; [done|].
  assert (lowercase_letters "admin") as Hl by (cbn; lia).
  pose proof (lower_eq_ignoring_case u "admin" Hl) as Hci.
  split; [|split; [|exact Hsame]]; unfold user_of; cbn [role];
    destruct (String.eqb (lower u) "admin") eqn:E.
  - apply String.eqb_eq in E. by apply Hci in E.
  - apply String.eqb_neq in E. rewrite Hci in E. by split.
  - apply String.eqb_eq in E. apply Hci in E. by split.
  - apply String.eqb_neq in E. by rewrite Hci in E.
Qed.

(** ** The user store *)

Lemma records_of_cons d coll name :
  records_of (d :: coll) name
  = if decide (username d = name) then d :: records_of coll name
    else records_of coll name.
Proof.
  unfold records_of. destruct (decide (username d = name)).
  - by rewrite filter_cons_True.
  - by rewrite filter_cons_False.
Qed.

Lemma records_of_absent coll name :
  name ∉ username <$> coll → records_of coll name = [].
Proof.
  induction coll as [|d coll IH]; [done|]. intros Hn. rewrite fmap_cons in Hn.
  rewrite records_of_cons. apply not_elem_of_cons in Hn as [Hne Hn].
  destruct (decide (username d = name)); [congruence | by apply IH].
Qed.

Lemma update_one_None u coll :
  MongoUserRepository.update_one u coll = None → username u ∉ username <$> coll.
Proof.
  induction coll as [|d coll IH]; cbn; [intros _ H; inversion H|].
  destruct (String.eqb (username d) (username u)) eqn:E; [discriminate|].
  apply String.eqb_neq in E.
  destruct (MongoUserRepository.update_one u coll); [discriminate|].
  intros _. apply not_elem_of_cons. split; [congruence | by apply IH].
Qed.

Lemma update_one_Some u coll coll' :
  MongoUserRepository.update_one u coll = Some coll' →
  username <$> coll' = username <$> coll
  ∧ (∀ name, name ≠ username u → records_of coll' name = records_of coll name)
  ∧ (NoDup (username <$> coll) → records_of coll' (username u) = [u]).
Proof.
  revert coll'. induction coll as [|d coll IH]; intros coll';
    cbn -[records_of]; [discriminate|].
  destruct (String.eqb (username d) (username u)) eqn:E.
  - apply String.eqb_eq in E. intros [= <-]. cbn -[records_of]. rewrite E.
    split; [done|]. split.
    + intros name Hne. rewrite !records_of_cons.
      destruct (decide (username u = name)); [congruence|].
      destruct (decide (username d = name)); [congruence | done].
    + intros Hnd. apply NoDup_cons in Hnd as [Hnot _].
      rewrite records_of_cons, decide_True by done.
      by rewrite records_of_absent.
  - apply String.eqb_neq in E.
    destruct (MongoUserRepository.update_one u coll) as [c|]; [|discriminate].
    intros [= <-]. destruct (IH c eq_refl) as (Hn & Ho & Hu). cbn -[records_of].
    split; [by rewrite Hn|]. split.
    + intros name Hne. rewrite !records_of_cons, (Ho name Hne). done.
    + intros Hnd. apply NoDup_cons in Hnd as [_ Hnd].
      rewrite records_of_cons, decide_False by done. by apply Hu.
Qed.

Lemma login_users new_id u s :
  usernames_unique s →
  let s' := (AuthService.login new_id u s).1 in
  usernames_unique s'
  ∧ records_of (users s') u = [user_of u]
  ∧ ∀ name, name ≠ u → records_of (users s') name = records_of (users s) name.
Proof.
  unfold usernames_unique, AuthService.login. fold (user_of u).
  unfold MongoUserRepository.create_user. intros Hnd.
  destruct (MongoUserRepository.update_one (user_of u) (users s)) as [coll|] eqn:E;
    cbn.
  - destruct (update_one_Some _ _ _ E) as (Hn & Ho & Hu).
    split; [by rewrite Hn|]. split; [by apply Hu | exact Ho].
  - apply update_one_None in E. cbn in E.
    split; [|split].
    + rewrite fmap_app. apply NoDup_app. split; [done|]. split.
      * intros name Hin Hs. apply list_elem_of_singleton in Hs. by subst.
      * apply NoDup_singleton.
    + unfold records_of. rewrite filter_app.
      fold (records_of (users s) u). rewrite records_of_absent by done.
      by rewrite filter_cons_True.
    + intros name Hne. unfold records_of. rewrite filter_app.
      rewrite (filter_cons_False _ (user_of u)) by (cbn; congruence).
      by rewrite filter_nil, app_nil_r.
Qed.

Lemma logins_users new_id names s :
  usernames_unique s →
  usernames_unique (logins new_id names s)
  ∧ (∀ u, u ∈ names → records_of (users (logins new_id names s)) u = [user_of u])
  ∧ (∀ u, u ∉ names →
       records_of (users (logins new_id names s)) u = records_of (users s) u).
Proof.
  revert s. induction names as [|n names IH]; intros s Hs.
  - split; [done|]. split; [intros u Hu; inversion Hu | done].
  - destruct (login_users new_id n s Hs) as (H1 & H2 & H3).
    destruct (IH _ H1) as (I1 & I2 & I3).
    change (logins new_id (n :: names) s)
      with (logins new_id names (AuthService.login new_id n s).1).
    split; [done|]. split.
    + intros u Hu. destruct (decide (u ∈ names)) as [Hin|Hin]; [by apply I2|].
      apply elem_of_cons in Hu as [->|Hu]; [|done].
      by rewrite (I3 n Hin).
    + intros u Hu. apply not_elem_of_cons in Hu as [Hne Hu].
      rewrite (I3 u Hu). by apply H3.
Qed.

(** C10.  The user store holds at most one record per username: starting
    from a store whose usernames are distinct, after any sequence of
    [login] calls the usernames are still distinct, every username that
    logged in has exactly one record, the one with the role derived from
    it, and the records of the other usernames are as before. *)
Theorem one_user_record_per_username new_id names s :
  usernames_unique s →
  let s' := logins new_id names s in
  usernames_unique s'
  ∧ (∀ u, u ∈ names →
       records_of (users s') u = [(AuthService.login new_id u s).2])
  ∧ (∀ u, u ∉ names → records_of (users s') u = records_of (users s) u).
Proof.
  intros Hs s'. destruct (logins_users new_id names s Hs) as (H1 & H2 & H3).
  split; [done|]. split; [|done].
  intros u Hu. rewrite login_returns. by apply H2.
Qed.

Lemma one_user_record_per_username_witness :
  records_of (users (logins "x" ["ana"; "Admin"; "ana"; "ana"] empty_store)) "ana"
  = [{| username := "ana"; role := "public" |}].
Proof.
  apply (one_user_record_per_username "x" ["ana"; "Admin"; "ana"; "ana"] empty_store).
  - constructor.
  - left.
Defined.

(** * Further properties of the code *)

(** ** The catalog *)

Lemma dashboard_docs s :
  AdminService.get_realtime_dashboard s
  = Some (omap (doc_view (redis s)) (contestants s)).
Proof.
  unfold AdminService.get_realtime_dashboard, MongoContestantRepository.get_all.
  generalize (redis s) as r. induction (contestants s) as [|d docs IH]; intros r.
  - reflexivity.
  - cbn [omap list_omap]. unfold doc_view at 1.
    destruct (MongoContestantRepository.parse d) as [c|] eqn:E; [|by apply IH].
    assert (c_id c = Some (doc_id d)) as Hid.
    { unfold MongoContestantRepository.parse in E.
      destruct (doc_nombre d), (doc_categoria d), (doc_foto d); try discriminate.
      by injection E as <-. }
    cbn [mapM mbind option_bind]. rewrite Hid. cbn [mbind option_bind].
    rewrite (IH r). reflexivity.
Qed.

Lemma public_docs s :
  VotingService.get_contestants_for_public s
  = Some (public_of <$> omap (doc_view (redis s)) (contestants s)).
Proof.
  unfold VotingService.get_contestants_for_public, MongoContestantRepository.get_all.
  generalize (redis s) as r. induction (contestants s) as [|d docs IH]; intros r.
  - reflexivity.
  - cbn [omap list_omap]. unfold doc_view at 1.
    destruct (MongoContestantRepository.parse d) as [c|] eqn:E; [|by apply IH].
    assert (c_id c = Some (doc_id d)) as Hid.
    { unfold MongoContestantRepository.parse in E.
      destruct (doc_nombre d), (doc_categoria d), (doc_foto d); try discriminate.
      by injection E as <-. }
    cbn [mapM mbind option_bind]. rewrite Hid. cbn [mbind option_bind].
    rewrite (IH r). reflexivity.
Qed.

(** The public list is the dashboard without the votes: the same
    contestants in the same order, with id, name, category and photo. *)
Theorem public_list_is_dashboard_without_votes s :
  VotingService.get_contestants_for_public s
  = fmap (M := list) public_of <$> AdminService.get_realtime_dashboard s.
Proof. by rewrite public_docs, dashboard_docs. Qed.

Lemma find_app_last {A} (f : A → bool) (l : list A) (x : A) :
  List.find f (l ++ [x])
  = match List.find f l with
    | Some y => Some y
    | None => if f x then Some x else None
    end.
Proof.
  induction l as [|y l IH]; cbn; [done|]. by destruct (f y).
Qed.

Lemma find_doc_absent docs cid :
  cid ∉ doc_id <$> docs →
  List.find (λ d, String.eqb (doc_id d) cid) docs = None.
Proof.
  induction docs as [|d docs IH]; [done|]. intros Hn. rewrite fmap_cons in Hn.
  apply not_elem_of_cons in Hn as [Hne Hn]. cbn.
  assert (String.eqb (doc_id d) cid = false) as -> by (apply String.eqb_neq; congruence).
  by apply IH.
Qed.

(** A contestant added under an id that is new to the catalog can be
    read back by that id, in any spelling of its hexadecimal digits,
    comes last in the listing, and leaves the lookup of every other id,
    and of every text that is no id, as it was. *)
Theorem add_contestant_then_get new_id c s :
  canonical_id new_id →
  new_id ∉ doc_id <$> contestants s →
  let s' := (AdminService.add_contestant new_id c s).1 in
  (AdminService.add_contestant new_id c s).2 = new_id
  ∧ MongoContestantRepository.get_by_id s' new_id = Some (stored new_id c)
  ∧ (∀ cid, ObjectId cid = Some new_id →
       MongoContestantRepository.get_by_id s' cid = Some (stored new_id c))
  ∧ MongoContestantRepository.get_all s'
    = MongoContestantRepository.get_all s ++ [stored new_id c]
  ∧ ∀ cid, ObjectId cid ≠ Some new_id →
      MongoContestantRepository.get_by_id s' cid
      = MongoContestantRepository.get_by_id s cid.
Proof.
  intros Hcan Hn. cbn zeta.
  assert (∀ cid, ObjectId cid = Some new_id →
            MongoContestantRepository.get_by_id
              (AdminService.add_contestant new_id c s).1 cid
            = Some (stored new_id c)) as Hget.
  { intros cid Hcid. unfold MongoContestantRepository.get_by_id. rewrite Hcid. cbn.
    rewrite find_app_last, (find_doc_absent _ _ Hn). cbn.
    by rewrite String.eqb_refl. }
  split; [done|]. split; [by apply Hget|]. split; [done|]. split.
  - unfold MongoContestantRepository.get_all. cbn. by rewrite omap_app.
  - intros cid Hne. unfold MongoContestantRepository.get_by_id.
    destruct (ObjectId cid) as [oid|]; [|done]. cbn. rewrite find_app_last. cbn.
    assert (String.eqb new_id oid = false) as -> by (apply String.eqb_neq; congruence).
    by destruct (List.find _ (contestants s)).
Qed.

Lemma add_contestant_then_get_witness :
  MongoContestantRepository.get_by_id
    (AdminService.add_contestant "65a1b2c3d4e5f60718293a4b" eva empty_store).1
    "65A1B2C3D4E5F60718293A4B"
  = Some (stored "65a1b2c3d4e5f60718293a4b" eva).
Proof.
  apply (add_contestant_then_get "65a1b2c3d4e5f60718293a4b" eva empty_store).
  - reflexivity.
  - cbn. apply not_elem_of_nil.
  - reflexivity.
Defined.

(** ** The reports *)

Lemma doc_view_insert_other r d new_id v :
  doc_id d ≠ new_id →
  doc_view (<[votes_key new_id := v]> r) d = doc_view r d.
Proof.
  intros Hne. unfold doc_view, get_total_votes.
  rewrite lookup_insert_ne; [done|]. intros H. apply votes_key_inj in H. congruence.
Qed.

Lemma omap_view_insert r (docs : list ContestantDoc) new_id v :
  new_id ∉ doc_id <$> docs →
  omap (doc_view (<[votes_key new_id := v]> r)) docs = omap (doc_view r) docs.
Proof.
  induction docs as [|d docs IH]; [done|]. intros Hn. rewrite fmap_cons in Hn.
  apply not_elem_of_cons in Hn as [Hne Hn]. cbn [omap list_omap].
  rewrite doc_view_insert_other by congruence. by rewrite IH.
Qed.

(** A contestant added under an id that is new to the catalog appears
    last on the dashboard with 0 votes, whatever the counter under that id
    held before; the other entries and the global counter do not change. *)
Theorem add_contestant_dashboard new_id c s :
  new_id ∉ doc_id <$> contestants s →
  let s' := (AdminService.add_contestant new_id c s).1 in
  AdminService.get_realtime_dashboard s'
  = (λ full, full ++ [{| av_id := new_id; av_nombre := nombre c;
                         av_categoria := categoria c; av_foto := foto c;
                         total_votes := 0 |}])
    <$> AdminService.get_realtime_dashboard s
  ∧ get_total_votes (redis s') new_id = 0
  ∧ get_system_total_votes (redis s') = get_system_total_votes (redis s).
Proof.
  intros Hn. cbn zeta. rewrite !dashboard_docs. cbn. split; [|split].
  - rewrite omap_app, omap_view_insert by done. cbn. do 3 f_equal.
    unfold get_total_votes. by rewrite lookup_insert_eq.
  - unfold get_total_votes. by rewrite lookup_insert_eq.
  - unfold get_system_total_votes.
    by rewrite lookup_insert_ne by apply votes_key_not_total.
Qed.

Lemma add_contestant_dashboard_witness :
  get_total_votes
    (redis (AdminService.add_contestant "ghost" eva
              (VotingService.cast_vote calm "u1" "ghost" empty_store).1).1) "ghost" = 0.
Proof.
  apply (add_contestant_dashboard "ghost" eva
           (VotingService.cast_vote calm "u1" "ghost" empty_store).1).
  cbn. apply not_elem_of_nil.
Defined.

Lemma dashboard_entry_votes r (docs : list ContestantDoc) e :
  e ∈ omap (doc_view r) docs → total_votes e = get_total_votes r (av_id e).
Proof.
  intros He. apply list_elem_of_omap in He as (d & _ & Hd).
  unfold doc_view in Hd. destruct (MongoContestantRepository.parse d); [|done].
  by injection Hd as <-.
Qed.

Lemma filter_ext_in {A} (P Q : A → Prop) `{∀ x, Decision (P x)} `{∀ x, Decision (Q x)}
    (l : list A) :
  (∀ x, x ∈ l → P x ↔ Q x) → filter P l = filter Q l.
Proof.
  induction l as [|x l IH]; [done|]. intros Hpq.
  assert (filter P l = filter Q l) as IH' by (apply IH; intros y Hy; apply Hpq; by right).
  destruct (decide (P x)) as [Hp|Hp].
  - rewrite filter_cons_True by done.
    rewrite (filter_cons_True Q) by (apply Hpq; [left | done]). by rewrite IH'.
  - rewrite filter_cons_False by done.
    rewrite (filter_cons_False Q); [done|]. intros Hq. apply Hp, Hpq; [left | done].
Qed.

(** While the tallies are consistent, the zero-vote report lists exactly
    the dashboard entries of the contestants that no ledger record
    references, in dashboard order. *)
Theorem zero_votes_report_is_unvoted s :
  tallies_consistent s →
  AdminService.get_contestants_with_zero_votes s
  = filter (λ e, records_for (votes s) (av_id e) = 0)
    <$> AdminService.get_realtime_dashboard s.
Proof.
  intros [_ Hp]. unfold AdminService.get_contestants_with_zero_votes.
  rewrite dashboard_docs. cbn. f_equal. apply filter_ext_in. intros e He.
  by rewrite (dashboard_entry_votes _ _ _ He), Hp.
Qed.

Lemma zero_votes_report_is_unvoted_witness :
  AdminService.get_contestants_with_zero_votes
    (run [InitializeDatabase (quiet sample_oid) [ana; bob]; CastVote calm "u1" "B"]
       empty_store)
  = Some [{| av_id := "A"; av_nombre := "Ana"; av_categoria := "Dance";
             av_foto := "default.png"; total_votes := 0 |}].
Proof.
  rewrite (zero_votes_report_is_unvoted
             (run [InitializeDatabase (quiet sample_oid) [ana; bob];
                   CastVote calm "u1" "B"] empty_store)).
  - vm_compute. reflexivity.
  - apply (tallies_cast_vote calm "u1" "B"
             (AdminService.initialize_database (quiet sample_oid) [ana; bob]
                empty_store).1); [reflexivity|].
    apply tallies_initialize_fresh; reflexivity.
Defined.

Lemma fold_add_category full acc cat :
  fold_left AdminService.add_category full acc !! cat
  = if decide (in_category cat full = []) then acc !! cat
    else Some (default 0 (acc !! cat) + sum_votes (in_category cat full)).
Proof.
  revert acc. induction full as [|e full IH]; intros acc; [done|].
  cbn [fold_left]. rewrite IH. unfold in_category, AdminService.add_category.
  destruct (decide (av_categoria e = cat)) as [He|He].
  - rewrite (filter_cons_True _ e) by done. rewrite He, lookup_insert_eq.
    destruct (decide (e :: _ = [])) as [?|_]; [done|]. cbn.
    destruct (decide (filter (λ e0, av_categoria e0 = cat) full = [])) as [->|_].
    + cbn. by rewrite Z.add_0_r.
    + cbn. by rewrite Z.add_assoc.
  - rewrite (filter_cons_False _ e) by done. by rewrite lookup_insert_ne.
Qed.

Lemma votes_by_category_docs s :
  AdminService.get_votes_by_category s
  = Some (fold_left AdminService.add_category
            (omap (doc_view (redis s)) (contestants s)) ∅).
Proof. unfold AdminService.get_votes_by_category. by rewrite dashboard_docs. Qed.

(** [get_votes_by_category] has an entry exactly for the categories of
    the dashboard, and the entry of a category is the sum of the votes of
    the dashboard entries of that category. *)
Theorem votes_by_category_sums s :
  ∃ full by_category,
    AdminService.get_realtime_dashboard s = Some full
    ∧ AdminService.get_votes_by_category s = Some by_category
    ∧ ∀ cat,
        by_category !! cat
        = if decide (in_category cat full = []) then None
          else Some (sum_votes (in_category cat full)).
Proof.
  unfold AdminService.get_votes_by_category. rewrite dashboard_docs. cbn.
  eexists _, _. split; [done|]. split; [done|].
  intros cat. rewrite fold_add_category, lookup_empty. cbn.
  by destruct (decide _).
Qed.

Lemma total_counts_run_op o s :
  counter_answers o → total_counts_ledger s → total_counts_ledger (run_op o s).
Proof.
  unfold total_counts_ledger.
  destruct o as [env u c|env json_data|new_id c|new_id u];
    cbn [counter_answers run_op]; intros Ha Hs.
  - rewrite cast_vote_run, Ha.
    destruct (find_fault env); [done|].
    destruct (has_voted (votes s) u c); [done|].
    destruct (insert_fault env); [done|]. cbn zeta.
    assert (get_system_total_votes (counted c (redis s))
            = Z.of_nat (length (votes s ++ [new_vote env u c]))) as H.
    { rewrite counted_total, length_app, Hs. cbn. lia. }
    destruct (get_fault env); [exact H|]. destruct (emit env); exact H.
  - destruct (initialize_database_aborted env json_data s) as (_ & _ & Hab).
    cbn zeta in Hab.
    destruct (clear_contestants_fault env) eqn:H1;
      [|destruct (flushdb_fault env) eqn:H2].
    + destruct Hab as (Hv & Hr & _); [by left|]. by rewrite Hv, Hr.
    + destruct Hab as (Hv & Hr & _); [by right|]. by rewrite Hv, Hr.
    + destruct (initialize_database_cleared env json_data s H1 H2 Ha)
        as (Hv & _ & _ & Hz & _).
      cbn zeta in Hv, Hz. unfold get_system_total_votes. by rewrite Hz, Hv.
  - cbn. unfold get_system_total_votes.
    by rewrite lookup_insert_ne by apply votes_key_not_total.
  - destruct (login_keeps new_id u s) as (Hv & Hr & _). by rewrite Hv, Hr.
Qed.

(** In a run in which the counter store answers every increment of
    [cast_vote] and the ledger store answers the clear of every
    [initialize_database], whatever else faults during the bulk loads, the
    system total of [get_system_stats] is the number of ledger records. *)
Theorem system_total_is_ledger_size ops s :
  total_counts_ledger s →
  Forall counter_answers ops →
  ∃ stats,
    AdminService.get_system_stats (run ops s) = Some stats
    ∧ total_votes_system stats = Z.of_nat (length (votes (run ops s))).
Proof.
  intros Hs Hops.
  assert (total_counts_ledger (run ops s)) as Ht.
  { revert s Hs. induction Hops as [|o ops Ho _ IH]; intros s Hs; [done|].
    cbn. apply IH. by apply total_counts_run_op. }
  unfold AdminService.get_system_stats. rewrite votes_by_category_docs. cbn.
  eexists. split; [done|]. exact Ht.
Qed.

Lemma system_total_is_ledger_size_witness :
  ∃ stats,
    AdminService.get_system_stats
      (run [CastVote calm "u0" "A"; InitializeDatabase stuck_counters [ana];
            InitializeDatabase (quiet sample_oid) [ana; bob];
            CastVote calm "u1" "A"; CastVote calm "u1" "A"; CastVote calm "u2" "A"]
         empty_store) = Some stats
    ∧ total_votes_system stats = 2.
Proof.
  apply (system_total_is_ledger_size
           [CastVote calm "u0" "A"; InitializeDatabase stuck_counters [ana];
            InitializeDatabase (quiet sample_oid) [ana; bob];
            CastVote calm "u1" "A"; CastVote calm "u1" "A"; CastVote calm "u2" "A"]
           empty_store).
  - reflexivity.
  - repeat constructor.
Defined.

(** ** The vote endpoint *)

(** What an answer of POST /api/public/vote tells about the store: after
    a 409 the store is exactly as before; after a 200 the ledger holds the
    new record and both counters have gone up by one. *)
Theorem vote_response_and_store env u c s s' resp :
  cast_vote_endpoint env u c s = (s', resp) →
  (∀ detail, resp = HttpError 409 detail → s' = s)
  ∧ (∀ message, resp = Http200 message →
       votes s' = votes s ++ [new_vote env u c]
       ∧ get_total_votes (redis s') c = get_total_votes (redis s) c + 1
       ∧ get_system_total_votes (redis s') = get_system_total_votes (redis s) + 1).
Proof.
  unfold cast_vote_endpoint. rewrite cast_vote_run.
  destruct (find_fault env); [intros [= <- <-]; by split|].
  destruct (has_voted (votes s) u c); [intros [= <- <-]; by split|].
  destruct (insert_fault env); [intros [= <- <-]; by split|]. cbn zeta.
  destruct (incr_fault env); [intros [= <- <-]; by split|].
  destruct (get_fault env); [intros [= <- <-]; by split|].
  destruct (emit env); intros [= <- <-]; (split; [done|]); intros _ _;
    cbn -[counted get_total_votes get_system_total_votes];
    by rewrite counted_entrant, counted_total.
Qed.

Lemma vote_response_and_store_witness :
  votes (cast_vote_endpoint calm "u1" "A" empty_store).1
  = votes empty_store ++ [new_vote calm "u1" "A"].
Proof.
  apply (proj2 (vote_response_and_store calm "u1" "A" empty_store _ _ eq_refl)
           "Voto registrado correctamente").
  reflexivity.
Defined.

(** ** Notifications *)

(** A run of [cast_vote] hands the observers at most one event, and only
    when it returns [True]; the event names the entrant and carries the
    entrant's counter and the global counter as they are in the store
    after the vote. *)
Theorem vote_update_carries_stored_totals env u c s :
  let r := VotingService.cast_vote env u c s in
  (r.2 ≠ Returned true → delivered r.1 = delivered s)
  ∧ (r.2 = Returned true →
     delivered r.1 = delivered s
     ∨ delivered r.1
       = delivered s
         ++ [{| ev_contestant_id := c;
                ev_new_total_votes := get_total_votes (redis r.1) c;
                ev_system_total := get_system_total_votes (redis r.1) |}]).
Proof.
  cbn zeta. rewrite cast_vote_run.
  destruct (find_fault env); [by split|].
  destruct (has_voted (votes s) u c); [by split|].
  destruct (insert_fault env); [by split|]. cbn zeta.
  destruct (incr_fault env); [by split|].
  destruct (get_fault env); [by split|].
  destruct (emit env); (split; [done|]); intros _; [right | by left | by left].
  cbn. unfold update_of. do 3 f_equal.
  unfold get_total_votes, counted, incr. cbn.
  rewrite lookup_insert_ne by apply not_eq_sym, votes_key_not_total.
  by rewrite lookup_insert_eq.
Qed.

(** ** The ledger between resets *)

(** Operations other than [initialize_database] never remove or change a
    ledger record: the ledger after the run starts with the ledger
    before it. *)
Theorem ledger_is_append_only ops s :
  forallb keeps_ledger ops = true →
  votes s `prefix_of` votes (run ops s).
Proof.
  intros Hops. destruct (votes_run ops s Hops) as [l ->]. by exists l.
Qed.

Lemma ledger_is_append_only_witness :
  votes (VotingService.cast_vote calm "u1" "A" empty_store).1
  `prefix_of`
  votes (run [CastVote calm "u2" "A"; AddContestant "D" eva]
           (VotingService.cast_vote calm "u1" "A" empty_store).1).
Proof.
  apply (ledger_is_append_only [CastVote calm "u2" "A"; AddContestant "D" eva]).
  reflexivity.
Defined.

(** A run of [cast_vote] changes the answer of [has_user_voted_for] for
    its own voter and entrant at most: every other pair is answered as
    before, and its own pair is answered [True] afterwards exactly when it
    was so before or the ledger write went through. *)
Theorem cast_vote_marks_its_pair_only env u c s :
  let s' := (VotingService.cast_vote env u c s).1 in
  (∀ u' c', (u', c') ≠ (u, c) → has_voted (votes s') u' c' = has_voted (votes s) u' c')
  ∧ has_voted (votes s') u c
    = has_voted (votes s) u c || (negb (find_fault env) && negb (insert_fault env)).
Proof.
  cbn zeta. rewrite cast_vote_run.
  destruct (find_fault env); [split; [done | by rewrite orb_false_r]|].
  destruct (has_voted (votes s) u c) eqn:Hv; [by split|].
  destruct (insert_fault env); [by split|]. cbn zeta.
  assert ((∀ u' c', (u', c') ≠ (u, c) →
             has_voted (votes s ++ [new_vote env u c]) u' c' = has_voted (votes s) u' c')
          ∧ has_voted (votes s ++ [new_vote env u c]) u c = true) as H.
  { split; [|apply has_voted_new_vote]. intros u' c' Hne.
    destruct (has_voted (votes s) u' c') eqn:E.
    - by apply has_voted_app.
    - apply has_voted_false. apply has_voted_false in E.
      rewrite fmap_app, elem_of_app. intros [H|H]; [done|].
      apply list_elem_of_singleton in H. by apply Hne. }
  destruct (incr_fault env); [exact H|].
  destruct (get_fault env); [exact H|]. destruct (emit env); exact H.
Qed.

(** ** The bulk load *)

(** An [initialize_database] whose three clears are answered keeps
    nothing of the old ledger and counters, wherever it stops afterwards:
    the ledger is empty and every counter reads 0, and the users and the
    events already delivered are left alone.  When every store call is
    answered and every valid descriptor carries text for its name, its
    category and its photo reference, it returns, and the catalog holds
    one document per valid descriptor, in order, the [i]-th with the
    [i]-th id the store hands out, the descriptor's name and category,
    and as photo the first true value under foto, photo_url, photo, or
    "default.png". *)
Theorem initialize_database_resets env json_data s :
  clear_contestants_fault env = false →
  flushdb_fault env = false →
  clear_votes_fault env = false →
  let r := AdminService.initialize_database env json_data s in
  votes r.1 = []
  ∧ get_system_total_votes (redis r.1) = 0
  ∧ (∀ cid, get_total_votes (redis r.1) cid = 0)
  ∧ users r.1 = users s
  ∧ delivered r.1 = delivered s
  ∧ (calm_load env → Forall textual json_data →
     r.2 = Returned tt
     ∧ contestants r.1
       = imap (loaded_doc (new_oid env)) (filter valid_descriptor json_data)).
Proof.
  intros H1 H2 H3. cbn zeta.
  destruct (initialize_database_cleared env json_data s H1 H2 H3)
    as (Hv & Hu & Hd & Hz & _).
  cbn zeta in Hv, Hu, Hd, Hz.
  split; [done|]. split; [apply Hz|]. split; [intros cid; apply Hz|].
  split; [done|]. split; [done|]. intros Hcalm Htext.
  destruct (initialize_database_clean env json_data s Hcalm Htext) as (Hr & Hc & _).
  by split.
Qed.

Lemma initialize_database_resets_witness :
  let r := AdminService.initialize_database (quiet sample_oid) [ana; nameless; bob]
             (run [CastVote calm "u1" "A"; Login "x" "admin"] empty_store) in
  votes r.1 = []
  ∧ get_total_votes (redis r.1) "A" = 0
  ∧ users r.1 = [user_of "admin"]
  ∧ doc_id <$> contestants r.1 = ["A"; "B"].
Proof.
  intros r.
  destruct (initialize_database_resets (quiet sample_oid) [ana; nameless; bob]
              (run [CastVote calm "u1" "A"; Login "x" "admin"] empty_store))
    as (Hv & _ & Hz & Hu & _ & Hc); [reflexivity | reflexivity | reflexivity |].
  cbn zeta in Hv, Hz, Hu, Hc. split; [exact Hv|]. split; [apply Hz|].
  split; [exact Hu|].
  destruct Hc as [_ Hc].
  - by repeat split.
  - repeat constructor; intros Hvalid;
      first [ by (vm_compute; eauto)
            | destruct Hvalid as [[? H] _]; vm_compute in H; discriminate H ].
  - subst r. rewrite Hc. vm_compute. reflexivity.
Defined.

(** ** Users and the admin check *)

Lemma find_user_update u coll coll' name :
  MongoUserRepository.update_one u coll = Some coll' →
  List.find (λ d, String.eqb (username d) name) coll'
  = if decide (username u = name) then Some u
    else List.find (λ d, String.eqb (username d) name) coll.
Proof.
  revert coll'. induction coll as [|d coll IH]; intros coll'; cbn; [discriminate|].
  destruct (String.eqb (username d) (username u)) eqn:E.
  - apply String.eqb_eq in E. intros [= <-]. cbn.
    destruct (decide (username u = name)) as [->|Hne].
    + by rewrite String.eqb_refl.
    + assert (String.eqb (username u) name = false) as ->
        by by apply String.eqb_neq.
      assert (String.eqb (username d) name = false) as ->
        by (apply String.eqb_neq; congruence).
      done.
  - apply String.eqb_neq in E.
    destruct (MongoUserRepository.update_one u coll) as [c|]; [|discriminate].
    intros [= <-]. cbn. rewrite (IH c eq_refl).
    destruct (decide (username u = name)) as [<-|Hne]; [|done].
    assert (String.eqb (username d) (username u) = false) as ->
      by by apply String.eqb_neq.
    done.
Qed.

Lemma find_user_absent coll name :
  name ∉ username <$> coll →
  List.find (λ d, String.eqb (username d) name) coll = None.
Proof.
  induction coll as [|d coll IH]; [done|]. intros Hn. rewrite fmap_cons in Hn.
  apply not_elem_of_cons in Hn as [Hne Hn]. cbn.
  assert (String.eqb (username d) name = false) as ->
    by (apply String.eqb_neq; congruence).
  by apply IH.
Qed.

Lemma login_get_user new_id u s :
  MongoUserRepository.get_user_by_username (AuthService.login new_id u s).1 u
  = Some (user_of u)
  ∧ ∀ name, name ≠ u →
      MongoUserRepository.get_user_by_username (AuthService.login new_id u s).1 name
      = MongoUserRepository.get_user_by_username s name.
Proof.
  unfold AuthService.login, MongoUserRepository.get_user_by_username,
    MongoUserRepository.create_user. fold (user_of u).
  destruct (MongoUserRepository.update_one (user_of u) (users s)) as [coll|] eqn:E;
    cbn [fst users set_users].
  - split.
    + rewrite (find_user_update _ _ _ u E). by rewrite decide_True.
    + intros name Hne. rewrite (find_user_update _ _ _ name E).
      by rewrite decide_False by (cbn; congruence).
  - apply update_one_None in E. cbn in E. split.
    + rewrite find_app_last, (find_user_absent _ _ E). cbn.
      by rewrite String.eqb_refl.
    + intros name Hne. rewrite find_app_last. cbn.
      assert (String.eqb u name = false) as -> by (apply String.eqb_neq; congruence).
      by destruct (List.find _ (users s)).
Qed.

(** After [login] the user store answers a lookup of that username with
    the record [login] returned, whatever it held for the name before,
    and answers every other username as before. *)
Theorem login_then_get_user new_id u s :
  let r := AuthService.login new_id u s in
  MongoUserRepository.get_user_by_username r.1 u = Some r.2
  ∧ ∀ name, name ≠ u →
      MongoUserRepository.get_user_by_username r.1 name
      = MongoUserRepository.get_user_by_username s name.
Proof. cbn zeta. rewrite login_returns. apply login_get_user. Qed.

(** [require_admin] with the user id of a login response lets the caller
    through exactly when the response shows the role 'admin', that is,
    when the name is "admin" up to case; any other logged-in name gets
    403.  A missing or empty header and a name the user store does not
    know get 401. *)
Theorem require_admin_after_login new_id name s :
  name ≠ "" →
  let r := login_endpoint new_id name s in
  require_admin (Some (lr_user_id r.2)) r.1
  = (if decide (lr_role r.2 = "admin") then Admin (user_of name)
     else Denied 403 "No tienes permisos de administrador")
  ∧ (lr_role r.2 = "admin" ↔ eq_ignoring_case name "admin")
  ∧ (∀ s0, require_admin None s0 = Denied 401 "Header de autenticación faltante")
  ∧ (∀ s0, require_admin (Some "") s0 = Denied 401 "Header de autenticación faltante")
  ∧ (∀ s0 other, MongoUserRepository.get_user_by_username s0 other = None →
       ∃ detail, require_admin (Some other) s0 = Denied 401 detail).
Proof.
  intros Hne. cbn zeta. unfold login_endpoint.
  pose proof (login_get_user new_id name s) as [Hget _].
  pose proof (role_admin_iff name) as Hrole. unfold user_of in Hrole at 1.
  cbn [role] in Hrole.
  pose proof (login_returns new_id name s) as Hret.
  destruct (AuthService.login new_id name s) as [s1 user]. cbn in Hget, Hret |- *.
  subst user. cbn [username role user_of] in *.
  split; [|split; [exact Hrole|split; [done|split; [done|]]]].
  - rewrite bool_decide_eq_true_2 by done. cbn [negb]. rewrite Hget.
    cbn [role user_of]. by destruct (String.eqb (lower name) "admin").
  - intros s0 other Hnone. rewrite Hnone.
    destruct (negb (bool_decide (other ≠ ""))); eauto.
Qed.

Lemma require_admin_after_login_witness :
  require_admin (Some "ADMIN") (login_endpoint "x" "ADMIN" empty_store).1
  = Admin (user_of "ADMIN").
Proof.
  destruct (require_admin_after_login "x" "ADMIN" empty_store) as [H _].
  - discriminate.
  - exact H.
Defined.

(** ** The podium *)

(** The entries [get_top_3] returns and the entries it leaves out make up
    the dashboard, and no entry left out has more votes than an entry
    returned. *)
Theorem top_3_leaves_out_no_leader s :
  ∃ full top rest,
    AdminService.get_realtime_dashboard s = Some full
    ∧ AdminService.get_top_3 s = Some top
    ∧ top ++ rest ≡ₚ full
    ∧ ∀ a b, a ∈ top → b ∈ rest → total_votes b <= total_votes a.
Proof.
  destruct (dashboard_total s) as (full & Hfull & _).
  destruct (sort_reverse_spec total_votes full) as (Hp & Hd & _).
  exists full, (take 3 (sort_reverse total_votes full)),
    (drop 3 (sort_reverse total_votes full)).
  split; [done|]. split.
  { unfold AdminService.get_top_3. by rewrite Hfull. }
  split; [by rewrite take_drop|].
  intros a b Ha Hb. unfold descending in Hd.
  rewrite <- (take_drop 3 (sort_reverse total_votes full)) in Hd.
  exact (StronglySorted_app_1_elem_of _ _ _ a b Hd Ha Hb).
Qed.

(** ** All counters at once *)

Lemma str_split_colon_free (c t : string) :
  colon_free c → str_split ":" (c +:+ String ":" t) = c :: str_split ":" t.
Proof.
  induction c as [|x c IH]; intros Hc.
  - reflexivity.
  - destruct Hc as [Hx Hc]. simpl. rewrite (IH Hc).
    by rewrite (proj2 (Ascii.eqb_neq x ":") Hx).
Qed.

Lemma str_split_votes_key c :
  colon_free c → str_split ":" (votes_key c) = ["contestant"; c; "votes"].
Proof.
  intros Hc. unfold votes_key.
  change ("contestant:" +:+ c +:+ ":votes")
    with ("contestant" +:+ String ":" (c +:+ String ":" "votes")).
  rewrite (str_split_colon_free "contestant") by (cbn; repeat split; discriminate).
  by rewrite (str_split_colon_free c) by done.
Qed.

Lemma elem_of_keys (r : gmap string Z) k :
  k ∈ keys r ↔ is_votes_key k = true ∧ is_Some (r !! k).
Proof.
  unfold keys. rewrite list_elem_of_filter, list_elem_of_fmap. split.
  - intros [Hk ([k' v] & -> & Hin)]. split; [done|].
    apply elem_of_map_to_list in Hin. by exists v.
  - intros [Hk [v Hv]]. split; [done|]. exists (k, v). split; [done|].
    by apply elem_of_map_to_list.
Qed.

Lemma NoDup_keys (r : gmap string Z) : NoDup (keys r).
Proof. unfold keys. apply NoDup_filter, NoDup_fst_map_to_list. Qed.

Lemma fold_collect r ks acc c :
  NoDup ks →
  (∀ k, k ∈ ks → ∃ c', k = votes_key c' ∧ colon_free c') →
  fold_left (collect r) ks acc !! c
  = if decide (votes_key c ∈ ks) then Some (int_or_0 (r !! votes_key c))
    else acc !! c.
Proof.
  revert acc. induction ks as [|k ks IH]; intros acc Hnd Hks.
  - cbn. rewrite decide_False; [done | apply not_elem_of_nil].
  - apply NoDup_cons in Hnd as [Hk Hnd].
    destruct (Hks k) as (c0 & -> & Hc0); [left|].
    cbn [fold_left]. rewrite IH; [|done | intros k' Hk'; apply Hks; by right].
    unfold collect. rewrite (str_split_votes_key c0 Hc0).
    destruct (decide (c = c0)) as [->|Hne].
    + rewrite (decide_False (P := votes_key c0 ∈ ks)) by done.
      rewrite (decide_True (P := votes_key c0 ∈ votes_key c0 :: ks)) by left.
      by rewrite lookup_insert_eq.
    + assert (votes_key c ≠ votes_key c0) as Hkne
        by (intros H; by apply votes_key_inj in H).
      rewrite lookup_insert_ne by done.
      destruct (decide (votes_key c ∈ ks)) as [Hin|Hin].
      * rewrite decide_True; [done | by right].
      * rewrite decide_False; [done|]. by apply not_elem_of_cons.
Qed.

(** When the entrant ids behind the counter keys contain no colon,
    [get_all_votes] maps each entrant id to its counter and has no other
    entries. *)
Theorem get_all_votes_reads_counters (r : gmap string Z) :
  (∀ k, is_votes_key k = true → is_Some (r !! k) →
        ∃ c, k = votes_key c ∧ colon_free c) →
  ∀ c, get_all_votes r !! c = r !! votes_key c.
Proof.
  intros Hcf c. unfold get_all_votes.
  rewrite fold_collect; [| apply NoDup_keys |].
  - destruct (decide (votes_key c ∈ keys r)) as [Hin|Hin].
    + apply elem_of_keys in Hin as [_ [v Hv]]. by rewrite Hv.
    + rewrite lookup_empty. destruct (r !! votes_key c) as [v|] eqn:Hv; [|done].
      exfalso. apply Hin, elem_of_keys. split; [apply is_votes_key_votes_key | eauto].
  - intros k Hk. apply elem_of_keys in Hk as [H1 H2]. by apply Hcf.
Qed.

Lemma get_all_votes_reads_counters_witness :
  get_all_votes (<[votes_key "A" := 2]> ∅) !! "A" = Some 2.
Proof.
  rewrite (get_all_votes_reads_counters (<[votes_key "A" := 2]> ∅)).
  - apply lookup_insert_eq.
  - intros k _ [v Hv]. apply lookup_insert_Some in Hv as [[<- _]|[_ Hv]].
    + exists "A". split; [reflexivity|]. cbn. split; [discriminate | exact I].
    + by rewrite lookup_empty in Hv.
Defined.

(** ** The repositories on their own *)

(** [register_vote_document] never raises.  It returns [True] exactly
    when the store does not fault and the ledger has no record of the
    same voter and entrant, and then appends the record with the clock's
    timestamp; otherwise it returns [False] and leaves the store as it
    is.  So it keeps the ledger free of duplicates without the help of
    [has_user_voted_for]. *)
Theorem register_vote_document_guards_ledger fault now vote s :
  let r := register_vote_document fault now vote s in
  let written := negb fault && negb (has_voted (votes s) (user_id vote) (contestant_id vote)) in
  r.2 = Returned written
  ∧ r.1 = (if written
           then set_votes (λ l, l ++ [{| user_id := user_id vote;
                                         contestant_id := contestant_id vote;
                                         timestamp := now |}]) s
           else s)
  ∧ (ledger_unique s → ledger_unique r.1).
Proof.
  cbn zeta. unfold register_vote_document, insert_one, store_call, try_except,
    mbind, M_bind, bind, gets, modify, ret, raise.
  destruct fault; [by repeat split|]. cbn [user_id contestant_id negb andb].
  destruct (has_voted (votes s) (user_id vote) (contestant_id vote)) eqn:Hv.
  - unfold has_voted in Hv. apply bool_decide_eq_true in Hv.
    destruct (find_one (votes s) (user_id vote) (contestant_id vote)); [|done].
    by repeat split.
  - rewrite (has_voted_find _ _ _ Hv). cbn. repeat split.
    unfold ledger_unique. cbn. intros Hu. rewrite fmap_app.
    apply NoDup_app. split; [done|]. split; [|apply NoDup_singleton].
    intros p Hp Hq. apply list_elem_of_singleton in Hq. subst p.
    by apply has_voted_false in Hv.
Qed.

(** ** Repeated logins *)

Lemma update_one_again u coll coll' :
  MongoUserRepository.update_one u coll = Some coll' →
  MongoUserRepository.update_one u coll' = Some coll'.
Proof.
  revert coll'. induction coll as [|d coll IH]; intros coll'; cbn; [discriminate|].
  destruct (String.eqb (username d) (username u)) eqn:E.
  - intros [= <-]. cbn. by rewrite String.eqb_refl.
  - destruct (MongoUserRepository.update_one u coll) as [c|]; [|discriminate].
    intros [= <-]. cbn. rewrite E. by rewrite (IH c eq_refl).
Qed.

Lemma update_one_appended u coll :
  MongoUserRepository.update_one u coll = None →
  MongoUserRepository.update_one u (coll ++ [u]) = Some (coll ++ [u]).
Proof.
  induction coll as [|d coll IH]; cbn.
  - intros _. by rewrite String.eqb_refl.
  - destruct (String.eqb (username d) (username u)); [discriminate|].
    destruct (MongoUserRepository.update_one u coll); [discriminate|].
    intros _. by rewrite IH.
Qed.

(** Logging in again under the same name changes nothing: the store after
    the second [login] is the store after the first, and both return the
    same user. *)
Theorem login_twice_is_login_once new_id new_id' u s :
  let first := AuthService.login new_id u s in
  AuthService.login new_id' u first.1 = first.
Proof.
  cbn zeta. unfold AuthService.login, MongoUserRepository.create_user. fold (user_of u).
  destruct (MongoUserRepository.update_one (user_of u) (users s)) as [coll|] eqn:E;
    cbn [fst users set_users].
  - rewrite (update_one_again _ _ _ E). reflexivity.
  - rewrite (update_one_appended _ _ E). reflexivity.
Qed.

(** ** The dashboard and the ledger *)

(** While counters and ledger agree, every dashboard entry shows the
    number of ledger records that reference its contestant. *)
Theorem dashboard_shows_ledger_counts s :
  tallies_consistent s →
  ∃ full,
    AdminService.get_realtime_dashboard s = Some full
    ∧ Forall (λ e, total_votes e = records_for (votes s) (av_id e)) full.
Proof.
  intros [_ Hp]. rewrite dashboard_docs. eexists. split; [done|].
  apply Forall_forall. intros e He.
  by rewrite (dashboard_entry_votes _ _ _ He), Hp.
Qed.

Lemma dashboard_shows_ledger_counts_witness :
  ∃ full,
    AdminService.get_realtime_dashboard
      (run [InitializeDatabase (quiet sample_oid) [ana; bob]; CastVote calm "u1" "B"]
         empty_store)
    = Some full
    ∧ Forall (λ e, total_votes e
                   = records_for
                       (votes (run [InitializeDatabase (quiet sample_oid) [ana; bob];
                                    CastVote calm "u1" "B"] empty_store)) (av_id e)) full.
Proof.
  apply dashboard_shows_ledger_counts.
  apply (tallies_cast_vote calm "u1" "B"); [reflexivity|].
  apply tallies_initialize_fresh; reflexivity.
Defined.

(** ** Category totals *)

Lemma map_sum_insert k v (m : gmap string Z) :
  map_sum (<[k := v]> m) = map_sum m - default 0 (m !! k) + v.
Proof.
  unfold map_sum. destruct (m !! k) as [x|] eqn:Hk.
  - rewrite <- (insert_delete_eq m k v).
    rewrite map_fold_insert_L; [| intros; lia | apply lookup_delete_eq].
    rewrite (map_fold_delete_L _ 0 k x m); [| intros; lia | done].
    cbn. lia.
  - rewrite map_fold_insert_L; [| intros; lia | done]. cbn. lia.
Qed.

Lemma fold_add_category_sum full acc :
  map_sum (fold_left AdminService.add_category full acc) = map_sum acc + sum_votes full.
Proof.
  revert acc. induction full as [|e full IH]; intros acc; cbn [fold_left].
  - cbn. lia.
  - rewrite IH. unfold AdminService.add_category. rewrite map_sum_insert.
    change (sum_votes (e :: full)) with (total_votes e + sum_votes full). lia.
Qed.

(** The category totals of [get_votes_by_category] add up to the sum of
    the votes on the dashboard. *)
Theorem category_totals_add_up s :
  ∃ full by_category,
    AdminService.get_realtime_dashboard s = Some full
    ∧ AdminService.get_votes_by_category s = Some by_category
    ∧ map_sum by_category = sum_votes full.
Proof.
  rewrite votes_by_category_docs, dashboard_docs. eexists _, _.
  split; [done|]. split; [done|].
  rewrite fold_add_category_sum. unfold map_sum. rewrite map_fold_empty. lia.
Qed.

(** ** Documents the service writes *)

Lemma cast_vote_contestants env u c s :
  contestants (VotingService.cast_vote env u c s).1 = contestants s.
Proof.
  rewrite cast_vote_run.
  destruct (find_fault env); [done|].
  destruct (has_voted (votes s) u c); [done|].
  destruct (insert_fault env); [done|]. cbn zeta.
  destruct (incr_fault env); [done|].
  destruct (get_fault env); [done|]. by destruct (emit env).
Qed.

Lemma initialize_database_parses env json_data s :
  all_parse s → all_parse (AdminService.initialize_database env json_data s).1.
Proof.
  unfold all_parse. intros Hs.
  destruct (clear_contestants_fault env) eqn:H1;
    [by rewrite initialize_database_run, H1|].
  destruct (flushdb_fault env) eqn:H2;
    [rewrite initialize_database_run, H1, H2; constructor|].
  destruct (clear_votes_fault env) eqn:H3;
    [rewrite initialize_database_run, H1, H2, H3; constructor|].
  by apply initialize_database_cleared.
Qed.

Lemma all_parse_run_op o s : all_parse s → all_parse (run_op o s).
Proof.
  intros Hs. destruct o as [env u c|env json_data|new_id c|new_id u]; cbn [run_op].
  - unfold all_parse. by rewrite cast_vote_contestants.
  - by apply initialize_database_parses.
  - unfold all_parse. cbn. apply Forall_app. split; [done|].
    repeat constructor. by eexists.
  - unfold all_parse. by rewrite (proj1 (proj2 (proj2 (login_keeps new_id u s)))).
Qed.

Lemma get_all_length docs vs us r dl :
  Forall (λ d, is_Some (MongoContestantRepository.parse d)) docs →
  length (MongoContestantRepository.get_all
            {| contestants := docs; votes := vs; users := us; redis := r;
               delivered := dl |})
  = length docs.
Proof.
  unfold MongoContestantRepository.get_all. cbn [contestants].
  induction 1 as [|d docs [c Hc] _ IH]; [done|].
  cbn [omap list_omap]. rewrite Hc. cbn. by rewrite IH.
Qed.

(** [get_all] never has to skip a document that the service wrote: when
    every document of the catalog has its three text fields, this stays
    so under every operation, and [get_all] returns one contestant per
    document. *)
Theorem written_catalog_is_listed_in_full ops s :
  all_parse s →
  all_parse (run ops s)
  ∧ length (MongoContestantRepository.get_all (run ops s))
    = length (contestants (run ops s)).
Proof.
  intros Hs.
  assert (all_parse (run ops s)) as Hr.
  { revert s Hs. induction ops as [|o ops IH]; intros s Hs; [done|].
    cbn. apply IH. by apply all_parse_run_op. }
  split; [done|]. destruct (run ops s) as [docs vs us r dl].
  by apply get_all_length.
Qed.

Lemma written_catalog_is_listed_in_full_witness :
  length (MongoContestantRepository.get_all
            (run [InitializeDatabase (quiet sample_oid) [ana; nameless; bob];
                  AddContestant "D" eva] empty_store))
  = length (contestants
              (run [InitializeDatabase (quiet sample_oid) [ana; nameless; bob];
                    AddContestant "D" eva] empty_store)).
Proof.
  apply (written_catalog_is_listed_in_full
           [InitializeDatabase (quiet sample_oid) [ana; nameless; bob];
            AddContestant "D" eva]
           empty_store).
  constructor.
Defined.
